(** * plagiarism-analyst: the reference store, the prompt builder, the
    analysis client, the result view and the PDF extraction, embedded from
    the TypeScript sources and checked against the specification.

    Strings are sequences of code units.  Every code unit is modelled as an
    [ascii] (a code unit below 256), which covers all the delimiters,
    whitespace and digits the program looks at. *)

From Stdlib Require Import ZArith List Ascii String Lia Bool.
From stdpp Require Import base list gmap strings.
Import ListNotations.

Local Open Scope list_scope.

(** ** Text primitives of the host language *)

Module Text.

Abbreviation jstr := (list ascii).

Definition lit (s : string) : jstr := list_ascii_of_string s.

Definition nl : ascii := ascii_of_nat 10.
Definition dquote : ascii := ascii_of_nat 34.

(** A literal written with single quotes standing for double quotes. *)
Definition q (s : string) : jstr :=
  map (fun c => if Ascii.eqb c "'"%char then dquote else c) (lit s).

(** Pattern characters are compared exactly ([Ascii.eqb]) or, for a regular
    expression with the [i] flag, up to the case of the letters a-z. *)
Definition upcase (c : ascii) : ascii :=
  let n := nat_of_ascii c in
  if (97 <=? n)%nat && (n <=? 122)%nat then ascii_of_nat (n - 32) else c.

Definition eq_ci (a b : ascii) : bool := Ascii.eqb (upcase a) (upcase b).

Fixpoint starts_with (eqc : ascii -> ascii -> bool) (pat s : jstr) : bool :=
  match pat, s with
  | [], _ => true
  | _ :: _, [] => false
  | p :: pat', c :: s' => eqc p c && starts_with eqc pat' s'
  end.

(** One left-to-right pass of a global literal pattern: at every position
    that is not inside an earlier match the pattern is tried; a match
    consumes [length pat] characters. *)
Inductive piece := Lit (c : ascii) | Hit.

Fixpoint scan (eqc : ascii -> ascii -> bool) (pat : jstr) (skip : nat)
    (s : jstr) : list piece :=
  match s with
  | [] => []
  | c :: s' =>
      match skip with
      | S k => scan eqc pat k s'
      | O =>
          if starts_with eqc pat s
          then Hit :: scan eqc pat (length pat - 1) s'
          else Lit c :: scan eqc pat 0 s'
      end
  end.

Definition render (rep : jstr) (p : piece) : jstr :=
  match p with Lit c => [c] | Hit => rep end.

(** [s.replace(/pat/g, rep)] and [s.replace(/pat/gi, rep)] for a literal,
    non-empty [pat] and a replacement without [$]. *)
Definition replace_g (pat rep s : jstr) : jstr :=
  flat_map (render rep) (scan Ascii.eqb pat 0 s).

Definition replace_gi (pat rep s : jstr) : jstr :=
  flat_map (render rep) (scan eq_ci pat 0 s).

Definition is_hit (p : piece) : bool :=
  match p with Hit => true | Lit _ => false end.

(** Number of (non-overlapping, leftmost) occurrences of [pat] in [s]: the
    number of separators [s.split(pat)] cuts at. *)
Definition occurrences (pat s : jstr) : nat :=
  length (filter (fun p => is_hit p = true) (scan Ascii.eqb pat 0 s)).

(** Does [pat] match at some position of [s]; [s.includes(pat)] for the
    exact comparison. *)
Fixpoint occurs (eqc : ascii -> ascii -> bool) (pat s : jstr) : bool :=
  starts_with eqc pat s ||
  match s with
  | [] => false
  | _ :: s' => occurs eqc pat s'
  end.

Definition includes (pat s : jstr) : bool := occurs Ascii.eqb pat s.

(** [s.indexOf(c)] and [s.lastIndexOf(c)] for a one-character search
    string: [-1] when absent. *)
Fixpoint indexOf (c : ascii) (s : jstr) : Z :=
  match s with
  | [] => -1
  | x :: s' =>
      if Ascii.eqb x c then 0
      else let r := indexOf c s' in if (r =? -1)%Z then -1 else (r + 1)%Z
  end.

Fixpoint lastIndexOf (c : ascii) (s : jstr) : Z :=
  match s with
  | [] => -1
  | x :: s' =>
      let r := lastIndexOf c s' in
      if (r =? -1)%Z then (if Ascii.eqb x c then 0 else -1) else (r + 1)%Z
  end.

(** [s.substring(a, b)]: both ends are clamped to [0, length] and swapped
    when they come in the wrong order. *)
Definition clamp (len x : Z) : Z := Z.min (Z.max x 0) len.

Definition substring (s : jstr) (a b : Z) : jstr :=
  let len := Z.of_nat (length s) in
  let a' := clamp len a in
  let b' := clamp len b in
  let lo := Z.min a' b' in
  let hi := Z.max a' b' in
  firstn (Z.to_nat (hi - lo)) (skipn (Z.to_nat lo) s).

(** White space and line terminators below 256, as [trim] sees them. *)
Definition is_space (c : ascii) : bool :=
  let n := nat_of_ascii c in
  ((9 <=? n)%nat && (n <=? 13)%nat) || (n =? 32)%nat || (n =? 160)%nat.

Fixpoint trimStart (s : jstr) : jstr :=
  match s with
  | [] => []
  | c :: s' => if is_space c then trimStart s' else s
  end.

Definition trimEnd (s : jstr) : jstr := rev (trimStart (rev s)).

Definition trim (s : jstr) : jstr := trimEnd (trimStart s).

(** Truthiness of a string: non-empty. *)
Definition truthy (s : jstr) : bool :=
  match s with [] => false | _ :: _ => true end.

(** [parts.join(sep)]. *)
Fixpoint join (sep : jstr) (parts : list jstr) : jstr :=
  match parts with
  | [] => []
  | [p] => p
  | p :: rest => p ++ sep ++ join sep rest
  end.

(** [n.toString()] for a non-negative integer: decimal digits, most
    significant first, no leading zero. *)
Definition digit (d : nat) : ascii := ascii_of_nat (48 + d).

Fixpoint to_digits (fuel n : nat) (acc : jstr) : jstr :=
  match fuel with
  | O => acc
  | S f =>
      let acc' := digit (n mod 10) :: acc in
      if (n / 10 =? 0)%nat then acc' else to_digits f (n / 10) acc'
  end.

Definition toString (n : nat) : jstr := to_digits (S n) n [].

(** The number a string of decimal digits denotes. *)
Definition is_decimal (c : ascii) : bool :=
  (48 <=? nat_of_ascii c)%nat && (nat_of_ascii c <=? 57)%nat.

Definition decimal_value (s : jstr) : nat :=
  fold_left (fun a c => 10 * a + (nat_of_ascii c - 48)) s 0.

(** [s.padStart(width, fill)] for a one-character [fill]: no truncation of
    a longer string. *)
Definition padStart (width : nat) (fill : ascii) (s : jstr) : jstr :=
  repeat fill (width - length s) ++ s.

(** [i] is the position of the first [c] of [s]; [j] that of the last. *)
Definition first_at (c : ascii) (s : jstr) (i : nat) : Prop :=
  s !! i = Some c /\ forall k, k < i -> s !! k <> Some c.

Definition last_at (c : ascii) (s : jstr) (j : nat) : Prop :=
  s !! j = Some c /\ forall k, j < k -> s !! k <> Some c.

End Text.

Import Text.


(** ** types.ts *)

Module Types.

Inductive SourceType := PAPER | BOOK | WEBSITE | THESIS | OTHER.

(** The string value of each enum member. *)
Definition SourceType_value (t : SourceType) : jstr :=
  match t with
  | PAPER => lit "paper"
  | BOOK => lit "book"
  | WEBSITE => lit "website"
  | THESIS => lit "thesis"
  | OTHER => lit "other"
  end.

Record ReferenceItem := {
  id : jstr;
  sourceType : SourceType;
  text : jstr;
  isExpanded : option bool  (* optional field *)
}.

Record WebSource := { uri : jstr; title : jstr }.

End Types.

(** ** components/ReferenceList.tsx: the reference store

    The [references] array holds object references.  The store is a heap of
    records together with the array of their addresses, so that "the same
    object" and "an equal object" are told apart. *)

Module ReferenceList.

Abbreviation loc := nat.

Record store := {
  heap : gmap loc Types.ReferenceItem;
  references : list loc
}.

Definition empty : store := {| heap := ∅; references := [] |}.

(** The records of the array, in order (what the component renders and the
    analysis receives). *)
Definition contents (st : store) : list Types.ReferenceItem :=
  omap (fun l => heap st !! l) (references st).

(** Every array slot points at an allocated record. *)
Definition wf (st : store) : Prop :=
  forall l, l ∈ references st -> is_Some (heap st !! l).

Definition alloc (h : gmap loc Types.ReferenceItem) : loc := fresh (dom h).

Definition newRef (count : nat) : Types.ReferenceItem :=
  {| Types.id := lit "REF-" ++ padStart 3 "0"%char (toString (count + 1));
     Types.sourceType := Types.PAPER;
     Types.text := [];
     Types.isExpanded := Some true |}.

(** [onUpdate([...references, newRef])]. *)
Definition addReference (st : store) : store :=
  let l := alloc (heap st) in
  {| heap := <[l := newRef (length (references st))]> (heap st);
     references := references st ++ [l] |}.

(** [field: keyof ReferenceItem] with a value of the field's type. *)
Inductive field := F_id | F_sourceType | F_text | F_isExpanded.

Definition field_type (f : field) : Type :=
  match f with
  | F_id => jstr
  | F_sourceType => Types.SourceType
  | F_text => jstr
  | F_isExpanded => option bool
  end.

Definition get (f : field) (r : Types.ReferenceItem) : field_type f :=
  match f with
  | F_id => Types.id r
  | F_sourceType => Types.sourceType r
  | F_text => Types.text r
  | F_isExpanded => Types.isExpanded r
  end.

(** [{ ...r, [field]: value }]. *)
Definition set (f : field) : field_type f -> Types.ReferenceItem -> Types.ReferenceItem :=
  match f with
  | F_id => fun v r =>
      {| Types.id := v; Types.sourceType := Types.sourceType r;
         Types.text := Types.text r; Types.isExpanded := Types.isExpanded r |}
  | F_sourceType => fun v r =>
      {| Types.id := Types.id r; Types.sourceType := v;
         Types.text := Types.text r; Types.isExpanded := Types.isExpanded r |}
  | F_text => fun v r =>
      {| Types.id := Types.id r; Types.sourceType := Types.sourceType r;
         Types.text := v; Types.isExpanded := Types.isExpanded r |}
  | F_isExpanded => fun v r =>
      {| Types.id := Types.id r; Types.sourceType := Types.sourceType r;
         Types.text := Types.text r; Types.isExpanded := v |}
  end.

(** [newRefs = [...references]; newRefs[index] = {...newRefs[index],
    [field]: value}; onUpdate(newRefs)].  The copy has fresh identity as an
    array and shares every element; slot [index] receives a newly allocated
    record.  For [index] beyond the array the host language would grow the
    array with a record that has only [field], which is not a
    [ReferenceItem]; the component passes indices of rendered rows only, and
    the model gives [None] there. *)
Definition updateReference (index : nat) (f : field) (value : field_type f)
    (st : store) : option store :=
  match references st !! index with
  | Some l =>
      match heap st !! l with
      | Some r =>
          let l' := alloc (heap st) in
          Some {| heap := <[l' := set f value r]> (heap st);
                  references := <[index := l']> (references st) |}
      | None => None
      end
  | None => None
  end.

(** [references.filter((_, i) => i !== index)]. *)
Fixpoint filter_index {A} (keep : nat -> bool) (i : nat) (l : list A) : list A :=
  match l with
  | [] => []
  | x :: l' =>
      if keep i then x :: filter_index keep (S i) l'
      else filter_index keep (S i) l'
  end.

Definition removeReference (index : nat) (st : store) : store :=
  {| heap := heap st;
     references :=
       filter_index (fun i => negb (i =? index)%nat) 0 (references st) |}.

(** [updateReference(index, 'isExpanded', !references[index].isExpanded)]. *)
Definition toggleExpand (index : nat) (st : store) : option store :=
  match references st !! index with
  | Some l =>
      match heap st !! l with
      | Some r =>
          let cur := match Types.isExpanded r with Some b => b | None => false end in
          updateReference index F_isExpanded (Some (negb cur)) st
      | None => None
      end
  | None => None
  end.

End ReferenceList.

(** ** components/AnalysisView.tsx: the colour tier of a risk score

    The score is the integer 0-100 of the data model; the functions are
    total on all integers. *)

Module AnalysisView.

Definition getRiskColor (score : Z) : jstr :=
  if (score <? 20)%Z then lit "text-green-600"
  else if (score <? 50)%Z then lit "text-yellow-600"
  else if (score <? 80)%Z then lit "text-orange-600"
  else lit "text-red-600".

Definition getRiskBg (score : Z) : jstr :=
  if (score <? 20)%Z then lit "bg-green-50 border-green-200"
  else if (score <? 50)%Z then lit "bg-yellow-50 border-yellow-200"
  else if (score <? 80)%Z then lit "bg-orange-50 border-orange-200"
  else lit "bg-red-50 border-red-200".

End AnalysisView.

(** ** The built-in JSON.parse

    The grammar of ECMA-404 with the white space, string escapes and number
    syntax JSON.parse accepts.  The result is the parse tree: a number keeps
    its literal (the host converts it to a double afterwards), a string is
    its sequence of code units, and an object keeps its members in source
    order (the host then lets the last of several equal keys win). *)

Module JSON.

#[local] Set Warnings "-register-all".

Inductive value :=
| Null
| Bool (b : bool)
| Number (literal : jstr)
| Str (units : list N)
| Array (items : list value)
| Object (members : list (list N * value)).

Definition code (c : ascii) : nat := nat_of_ascii c.

Definition is_ws (c : ascii) : bool :=
  (code c =? 9)%nat || (code c =? 10)%nat || (code c =? 13)%nat
  || (code c =? 32)%nat.

Fixpoint skip_ws (s : jstr) : jstr :=
  match s with
  | [] => []
  | c :: s' => if is_ws c then skip_ws s' else s
  end.

Definition is_digit (c : ascii) : bool :=
  (48 <=? code c)%nat && (code c <=? 57)%nat.

Fixpoint span (p : ascii -> bool) (s : jstr) : jstr * jstr :=
  match s with
  | [] => ([], [])
  | c :: s' =>
      if p c then let '(a, b) := span p s' in (c :: a, b) else ([], s)
  end.

Definition digits1 (s : jstr) : option (jstr * jstr) :=
  match span is_digit s with
  | ([], _) => None
  | (ds, r) => Some (ds, r)
  end.

(** An optional minus sign; a zero, or a non-zero digit followed by digits;
    optionally a point and at least one digit; optionally e or E, a sign
    and at least one digit. *)
Definition parse_number (s : jstr) : option (jstr * jstr) :=
  let '(sign, s1) :=
    match s with
    | c :: r => if Ascii.eqb c "-"%char then ([c], r) else ([], s)
    | [] => ([], s)
    end in
  match s1 with
  | [] => None
  | c :: r =>
      let int_part :=
        if Ascii.eqb c "0"%char then Some ([c], r)
        else if is_digit c then let '(ds, r') := span is_digit r in Some (c :: ds, r')
        else None in
      match int_part with
      | None => None
      | Some (ip, s2) =>
          let frac_part :=
            match s2 with
            | d :: r2 =>
                if Ascii.eqb d "."%char then
                  match digits1 r2 with
                  | Some (ds, r3) => Some (d :: ds, r3)
                  | None => None
                  end
                else Some ([], s2)
            | [] => Some ([], s2)
            end in
          match frac_part with
          | None => None
          | Some (fp, s3) =>
              match s3 with
              | e :: r3 =>
                  if Ascii.eqb e "e"%char || Ascii.eqb e "E"%char then
                    let '(sg, r4) :=
                      match r3 with
                      | g :: r4 =>
                          if Ascii.eqb g "+"%char || Ascii.eqb g "-"%char
                          then ([g], r4) else ([], r3)
                      | [] => ([], r3)
                      end in
                    match digits1 r4 with
                    | Some (ds, r5) => Some (sign ++ ip ++ fp ++ e :: sg ++ ds, r5)
                    | None => None
                    end
                  else Some (sign ++ ip ++ fp, s3)
              | [] => Some (sign ++ ip ++ fp, s3)
              end
          end
      end
  end.

Definition hex_value (c : ascii) : option N :=
  let n := code c in
  if (48 <=? n)%nat && (n <=? 57)%nat then Some (N.of_nat (n - 48))
  else if (97 <=? n)%nat && (n <=? 102)%nat then Some (N.of_nat (n - 87))
  else if (65 <=? n)%nat && (n <=? 70)%nat then Some (N.of_nat (n - 55))
  else None.

Definition hex4 (a b c d : ascii) : option N :=
  match hex_value a, hex_value b, hex_value c, hex_value d with
  | Some x, Some y, Some z, Some w => Some (((x * 16 + y) * 16 + z) * 16 + w)%N
  | _, _, _, _ => None
  end.

Definition simple_escape (c : ascii) : option N :=
  if Ascii.eqb c dquote then Some 34%N
  else if Ascii.eqb c "\"%char then Some 92%N
  else if Ascii.eqb c "/"%char then Some 47%N
  else if Ascii.eqb c "b"%char then Some 8%N
  else if Ascii.eqb c "f"%char then Some 12%N
  else if Ascii.eqb c "n"%char then Some 10%N
  else if Ascii.eqb c "r"%char then Some 13%N
  else if Ascii.eqb c "t"%char then Some 9%N
  else None.

(** The characters of a string after its opening quote, up to and including
    the closing quote. *)
Fixpoint parse_chars (s : jstr) (acc : list N) : option (list N * jstr) :=
  match s with
  | [] => None
  | c :: r =>
      if Ascii.eqb c dquote then Some (rev acc, r)
      else if Ascii.eqb c "\"%char then
        match r with
        | [] => None
        | e :: r1 =>
            if Ascii.eqb e "u"%char then
              match r1 with
              | h1 :: h2 :: h3 :: h4 :: r2 =>
                  match hex4 h1 h2 h3 h4 with
                  | Some u => parse_chars r2 (u :: acc)
                  | None => None
                  end
              | _ => None
              end
            else
              match simple_escape e with
              | Some u => parse_chars r1 (u :: acc)
              | None => None
              end
        end
      else if (code c <? 32)%nat then None
      else parse_chars r (N_of_ascii c :: acc)
  end.

Definition literal (word : jstr) (v : value) (s : jstr) : option (value * jstr) :=
  if starts_with Ascii.eqb word s then Some (v, skipn (length word) s) else None.

Fixpoint parse_value (fuel : nat) (s : jstr) : option (value * jstr) :=
  match fuel with
  | O => None
  | S f =>
      match skip_ws s with
      | [] => None
      | c :: r =>
          if Ascii.eqb c "{"%char then
            match skip_ws r with
            | d :: r' =>
                if Ascii.eqb d "}"%char then Some (Object [], r')
                else parse_members f (d :: r') []
            | [] => None
            end
          else if Ascii.eqb c "["%char then
            match skip_ws r with
            | d :: r' =>
                if Ascii.eqb d "]"%char then Some (Array [], r')
                else parse_elements f (d :: r') []
            | [] => None
            end
          else if Ascii.eqb c dquote then
            match parse_chars r [] with
            | Some (u, r') => Some (Str u, r')
            | None => None
            end
          else if Ascii.eqb c "t"%char then literal (lit "true") (Bool true) (c :: r)
          else if Ascii.eqb c "f"%char then literal (lit "false") (Bool false) (c :: r)
          else if Ascii.eqb c "n"%char then literal (lit "null") Null (c :: r)
          else
            match parse_number (c :: r) with
            | Some (n, r') => Some (Number n, r')
            | None => None
            end
      end
  end
with parse_elements (fuel : nat) (s : jstr) (acc : list value)
    : option (value * jstr) :=
  match fuel with
  | O => None
  | S f =>
      match parse_value f s with
      | None => None
      | Some (v, r) =>
          match skip_ws r with
          | c :: r' =>
              if Ascii.eqb c ","%char then parse_elements f r' (v :: acc)
              else if Ascii.eqb c "]"%char then Some (Array (rev (v :: acc)), r')
              else None
          | [] => None
          end
      end
  end
with parse_members (fuel : nat) (s : jstr) (acc : list (list N * value))
    : option (value * jstr) :=
  match fuel with
  | O => None
  | S f =>
      match skip_ws s with
      | c :: r =>
          if Ascii.eqb c dquote then
            match parse_chars r [] with
            | None => None
            | Some (k, r1) =>
                match skip_ws r1 with
                | d :: r2 =>
                    if Ascii.eqb d ":"%char then
                      match parse_value f r2 with
                      | None => None
                      | Some (v, r3) =>
                          match skip_ws r3 with
                          | e :: r4 =>
                              if Ascii.eqb e ","%char
                              then parse_members f r4 ((k, v) :: acc)
                              else if Ascii.eqb e "}"%char
                              then Some (Object (rev ((k, v) :: acc)), r4)
                              else None
                          | [] => None
                          end
                      end
                    else None
                | [] => None
                end
            end
          else None
      | [] => None
      end
  end.

(** [JSON.parse(text)]: one value between optional white space; [None] is
    the SyntaxError.  Every call consumes a character or hands over to a
    call that does, so twice the length bounds the depth. *)
Definition parse (s : jstr) : option value :=
  match parse_value (2 * length s + 2) s with
  | Some (v, r) => match skip_ws r with [] => Some v | _ :: _ => None end
  | None => None
  end.

Definition str (s : jstr) : list N := map N_of_ascii s.

End JSON.

(** ** The built-in Map, as far as the program uses it

    Keys are strings; iteration follows the order in which keys were first
    inserted; setting a key that is present replaces its value and leaves
    its position. *)

Module JSMap.

Section Map.
Context {V : Type}.

Fixpoint set (k : jstr) (v : V) (m : list (jstr * V)) : list (jstr * V) :=
  match m with
  | [] => [(k, v)]
  | (k', v') :: m' =>
      if decide (k' = k) then (k', v) :: m' else (k', v') :: set k v m'
  end.

(** [new Map(entries)]. *)
Definition of_entries (entries : list (jstr * V)) : list (jstr * V) :=
  fold_left (fun m e => set (fst e) (snd e) m) entries [].

(** [Array.from(m.values())]. *)
Definition values (m : list (jstr * V)) : list V := map snd m.

(** [m.get(k)]. *)
Fixpoint get (k : jstr) (m : list (jstr * V)) : option V :=
  match m with
  | [] => None
  | (k', v') :: m' => if decide (k' = k) then Some v' else get k m'
  end.

End Map.

(** The distinct elements of a list, each at its first occurrence. *)
Fixpoint nub (l : list jstr) : list jstr :=
  match l with
  | [] => []
  | k :: l' => k :: filter (fun x => x <> k) (nub l')
  end.

End JSMap.

(** ** services/geminiService.ts: the prompt builder and the analysis client *)

Module GeminiService.

(** *** What the client talks to *)

Inductive exn :=
| Error (message : jstr)
| TypeError (message : jstr).

Definition message (e : exn) : jstr :=
  match e with Error m => m | TypeError m => m end.

Inductive Result (A : Type) :=
| Ok (a : A)
| Throw (e : exn).
Arguments Ok {A} a.
Arguments Throw {A} e.

Definition bindR {A B} (r : Result A) (k : A -> Result B) : Result B :=
  match r with Ok a => k a | Throw e => Throw e end.

(** The prompt is the fixed instruction template of the source with its
    holes filled in; the record keeps the holes. *)
Record Prompt := {
  p_documentType : jstr;
  p_documentText : jstr;
  p_references : jstr;
  p_webSearch : bool
}.

Inductive Tool := googleSearch.

Record Config := {
  tools : option (list Tool);
  responseMimeType : option jstr
}.

Record GenerateContentParameters := {
  model : jstr;
  contents : Prompt;
  config : Config
}.

Record Web := { uri : option jstr; title : option jstr }.
Record GroundingChunk := { web : option Web }.
Record GroundingMetadata := { groundingChunks : option (list GroundingChunk) }.
Record Candidate := { groundingMetadata : option GroundingMetadata }.

Record GenerateContentResponse := {
  text : option jstr;
  candidates : option (list Candidate)
}.

(** The process configuration, the remote model and the message the engine
    gives a TypeError. *)
Record Host := {
  API_KEY : option jstr;
  generateContent : GenerateContentParameters -> Result GenerateContentResponse;
  typeErrorMessage : jstr
}.

(** The invocations of the client and the calls to the model are recorded,
    next to the result. *)
Inductive event :=
| Analyze (documentText : jstr) (references : list Types.ReferenceItem)
    (documentType : jstr) (enableWebSearch : bool)
| ModelCall (request : GenerateContentParameters).

Definition M (A : Type) : Type := (list event * Result A)%type.

Definition ret {A} (a : A) : M A := ([], Ok a).
Definition throw {A} (e : exn) : M A := ([], Throw e).
Definition bind {A B} (c : M A) (k : A -> M B) : M B :=
  match c with
  | (tr, Ok a) => let '(tr', r) := k a in (tr ++ tr', r)
  | (tr, Throw e) => (tr, Throw e)
  end.
Definition lift {A} (r : Result A) : M A := ([], r).
Definition emit (e : event) : M unit := ([e], Ok tt).

Notation "'let*' x := c 'in' k" := (bind c (fun x => k))
  (at level 10, x name, c at level 100, k at level 200).

Record Client := { apiKey : jstr }.

Definition getClient (host : Host) : Result Client :=
  match API_KEY host with
  | Some k => if truthy k then Ok {| apiKey := k |}
              else Throw (Error (lit "API Key is missing"))
  | None => Throw (Error (lit "API Key is missing"))
  end.

(** [ai.models.generateContent(request)]. *)
Definition models_generateContent (host : Host) (ai : Client)
    (request : GenerateContentParameters) : M GenerateContentResponse :=
  let* _ := emit (ModelCall request) in
  lift (generateContent host request).

(** *** The prompt builder *)

Definition REFERENCE_START : jstr := lit "---REFERENCE_START---".
Definition REFERENCE_END : jstr := lit "---REFERENCE_END---".

Definition formatReference (ref : Types.ReferenceItem) : jstr :=
  [nl] ++ REFERENCE_START ++ [nl]
  ++ lit "ID: " ++ Types.id ref ++ [nl]
  ++ lit "SOURCE_TYPE: " ++ Types.SourceType_value (Types.sourceType ref) ++ [nl]
  ++ lit "TEXT:" ++ [nl]
  ++ Types.text ref ++ [nl]
  ++ REFERENCE_END ++ [nl].

Definition formattedReferences (references : list Types.ReferenceItem) : jstr :=
  join [nl] (map formatReference references).

(** The text under the heading REFERENCE_TEXTS of the prompt. *)
Definition referencesSection (references : list Types.ReferenceItem) : jstr :=
  let formatted := formattedReferences references in
  if truthy (trim formatted) then formatted
  else lit "(No local references provided)".

Definition buildPrompt (documentText : jstr)
    (references : list Types.ReferenceItem) (documentType : jstr)
    (enableWebSearch : bool) : Prompt :=
  {| p_documentType := documentType;
     p_documentText := documentText;
     p_references := referencesSection references;
     p_webSearch := enableWebSearch |}.

Definition buildConfig (enableWebSearch : bool) : Config :=
  if enableWebSearch
  then {| tools := Some [googleSearch]; responseMimeType := None |}
  else {| tools := None; responseMimeType := Some (lit "application/json") |}.

(** *** Cleaning and parsing the reply *)

Definition FENCE : jstr := lit "```".
Definition FENCE_JSON : jstr := lit "```json".

(** [text.replace(/```json/gi, '').replace(/```/g, '')]. *)
Definition stripFences (text : jstr) : jstr :=
  replace_g FENCE [] (replace_gi FENCE_JSON [] text).

(** The text handed to JSON.parse. *)
Definition jsonText (raw : jstr) : jstr :=
  let text := stripFences raw in
  let firstOpen := indexOf "{"%char text in
  let lastClose := lastIndexOf "}"%char text in
  if negb (firstOpen =? -1)%Z && negb (lastClose =? -1)%Z
     && (lastClose >? firstOpen)%Z
  then substring text firstOpen (lastClose + 1)
  else text.

(** A [{] somewhere before a [}]. *)
Definition brace_pair (s : jstr) : Prop :=
  exists i j, i < j /\ s !! i = Some "{"%char /\ s !! j = Some "}"%char.

Definition parseReply (raw : jstr) : Result JSON.value :=
  match JSON.parse (jsonText raw) with
  | Some v => Ok v
  | None =>
      Throw (Error (lit
        "Failed to parse analysis results. The AI response was not valid JSON."))
  end.

(** *** Web sources *)

(** [chunks.filter(c => c.web?.uri).map(c => ({ uri: c.web.uri,
    title: c.web.title || c.web.uri }))]. *)
Definition webSourceOf (c : GroundingChunk) : option Types.WebSource :=
  match web c with
  | Some w =>
      match uri w with
      | Some u =>
          if truthy u then
            Some {| Types.uri := u;
                    Types.title :=
                      match title w with
                      | Some t => if truthy t then t else u
                      | None => u
                      end |}
          else None
      | None => None
      end
  | None => None
  end.

Definition webSources (chunks : list GroundingChunk) : list Types.WebSource :=
  omap webSourceOf chunks.

(** [Array.from(new Map(webSources.map(s => [s.uri, s])).values())]. *)
Definition entry (s : Types.WebSource) : jstr * Types.WebSource :=
  (Types.uri s, s).

Definition uniqueSources (sources : list Types.WebSource) : list Types.WebSource :=
  JSMap.values (JSMap.of_entries (map entry sources)).

(** [response.candidates?.[0]?.groundingMetadata?.groundingChunks]. *)
Definition groundingChunksOf (response : GenerateContentResponse)
    : option (list GroundingChunk) :=
  match candidates response with
  | Some (c :: _) =>
      match groundingMetadata c with
      | Some g => groundingChunks g
      | None => None
      end
  | _ => None
  end.

(** The parsed reply, and the [webSources] property when the client has
    assigned it. *)
Record AnalysisResult := {
  parsed : JSON.value;
  result_webSources : option (list Types.WebSource)
}.

(** [result.webSources = ...]: only objects (arrays included) take a
    property; in module code the assignment to anything else throws. *)
Definition assignWebSources (host : Host) (v : JSON.value)
    (ws : list Types.WebSource) : Result AnalysisResult :=
  match v with
  | JSON.Object _ | JSON.Array _ =>
      Ok {| parsed := v; result_webSources := Some ws |}
  | _ => Throw (TypeError (typeErrorMessage host))
  end.

(** *** The client *)

(** What the client does with the response once the model has answered. *)
Definition readReply (host : Host) (enableWebSearch : bool)
    (response : GenerateContentResponse) : Result AnalysisResult :=
  bindR (match text response with
         | Some t =>
             if truthy t then Ok t
             else Throw (Error (lit "No response generated from AI"))
         | None => Throw (Error (lit "No response generated from AI"))
         end) (fun raw =>
  bindR (parseReply raw) (fun result =>
  match (if enableWebSearch then groundingChunksOf response else None) with
  | Some chunks =>
      assignWebSources host result (uniqueSources (webSources chunks))
  | None => Ok {| parsed := result; result_webSources := None |}
  end)).

Definition analyzePlagiarism (host : Host) (documentText : jstr)
    (references : list Types.ReferenceItem) (documentType : jstr)
    (enableWebSearch : bool) : M AnalysisResult :=
  let* _ := emit (Analyze documentText references documentType enableWebSearch) in
  let* ai := lift (getClient host) in
  let prompt := buildPrompt documentText references documentType enableWebSearch in
  let config := buildConfig enableWebSearch in
  let* response := models_generateContent host ai
    {| model := lit "gemini-3-pro-preview"; contents := prompt; config := config |} in
  lift (readReply host enableWebSearch response).

Definition modelCalls (tr : list event) : list GenerateContentParameters :=
  omap (fun e => match e with ModelCall r => Some r | _ => None end) tr.

Definition clientInvocations (tr : list event) : list event :=
  filter (fun e => match e with Analyze _ _ _ _ => true | _ => false end = true) tr.

End GeminiService.

(** ** App.tsx: the state controller *)

Module App.

Import GeminiService.

Record AppState := {
  documentText : jstr;
  documentType : jstr;
  references : list Types.ReferenceItem;
  isAnalyzing : bool;
  result : option AnalysisResult;
  error : option jstr;
  isProcessingFile : bool;
  useWebSearch : bool
}.

(** The initial values of the state hooks. *)
Definition initial : AppState :=
  {| documentText := [];
     documentType := lit "Research Paper";
     references := [];
     isAnalyzing := false;
     result := None;
     error := None;
     isProcessingFile := false;
     useWebSearch := false |}.

Definition setError (e : option jstr) (st : AppState) : AppState :=
  {| documentText := documentText st; documentType := documentType st;
     references := references st; isAnalyzing := isAnalyzing st;
     result := result st; error := e;
     isProcessingFile := isProcessingFile st; useWebSearch := useWebSearch st |}.

Definition setResult (r : option AnalysisResult) (st : AppState) : AppState :=
  {| documentText := documentText st; documentType := documentType st;
     references := references st; isAnalyzing := isAnalyzing st;
     result := r; error := error st;
     isProcessingFile := isProcessingFile st; useWebSearch := useWebSearch st |}.

Definition setIsAnalyzing (b : bool) (st : AppState) : AppState :=
  {| documentText := documentText st; documentType := documentType st;
     references := references st; isAnalyzing := b;
     result := result st; error := error st;
     isProcessingFile := isProcessingFile st; useWebSearch := useWebSearch st |}.

Definition hasReferences (st : AppState) : bool :=
  (0 <? length (references st))%nat
  && existsb (fun r => truthy (trim (Types.text r))) (references st).

(** [err.message || ...]. *)
Definition errorMessage (e : exn) : jstr :=
  if truthy (message e) then message e
  else lit "An unexpected error occurred during analysis.".

(** [setResult(data)] with what the client returned: the client returns the
    value null when the reply is the JSON text null, and the state then holds
    no result. *)
Definition resultOf (data : AnalysisResult) : option AnalysisResult :=
  match parsed data with
  | JSON.Null => None
  | _ => Some data
  end.

(** The events of one run of the handler and the state once it has
    settled. *)
Definition handleAnalyze (host : Host) (st : AppState) : list event * AppState :=
  if negb (truthy (trim (documentText st))) then
    ([], setError (Some (lit "Please enter the document text.")) st)
  else if negb (hasReferences st) && negb (useWebSearch st) then
    ([], setError
           (Some (lit "Please add at least one reference text OR enable Web Search."))
           st)
  else
    let st1 := setResult None (setError None (setIsAnalyzing true st)) in
    let '(tr, outcome) :=
      analyzePlagiarism host (documentText st) (references st)
        (documentType st) (useWebSearch st) in
    let st2 :=
      match outcome with
      | Ok data => setResult (resultOf data) st1
      | Throw err => setError (Some (errorMessage err)) st1
      end in
    (tr, setIsAnalyzing false st2).

(** What the analysis needs: a document text that is not blank, and a
    reference whose text is not blank or the web search flag. *)
Definition preconditions (st : AppState) : Prop :=
  trim (documentText st) <> []
  /\ ((exists r, In r (references st) /\ trim (Types.text r) <> [])
      \/ useWebSearch st = true).

Definition handleReset (st : AppState) : AppState :=
  setError None (setResult None st).

End App.

(** ** utils/pdfUtils.ts *)

Module PdfUtils.

Import GeminiService.

Record TextItem := { str : option jstr }.
Record TextContent := { items : list TextItem }.
Record PDFPageProxy := { getTextContent : Result TextContent }.
Record PDFDocumentProxy := {
  numPages : nat;
  getPage : nat -> Result PDFPageProxy
}.

(** A file and the document library: reading the bytes and opening the
    document may each fail. *)
Record File := {
  arrayBuffer : Result (list N)
}.

Record Pdfjs := {
  getDocument : list N -> Result PDFDocumentProxy
}.

(** [items.map(item => item.str).join(' ')]: an absent [str] joins as the
    empty string. *)
Definition pageText (tc : TextContent) : jstr :=
  join (lit " ")
    (map (fun item => match str item with Some s => s | None => [] end)
       (items tc)).

(** What one turn of the loop appends. *)
Definition pageBlock (tc : TextContent) : jstr := pageText tc ++ [nl; nl].

(** The body of the loop for the pages [i], [i + 1], ... ([count] of them). *)
Fixpoint pagesFrom (pdf : PDFDocumentProxy) (i count : nat) (fullText : jstr)
    : Result jstr :=
  match count with
  | O => Ok fullText
  | S count' =>
      bindR (getPage pdf i) (fun page =>
      bindR (getTextContent page) (fun textContent =>
      pagesFrom pdf (S i) count' (fullText ++ pageBlock textContent)))
  end.

Definition extractionFailure : exn :=
  Error (lit "Failed to extract text from PDF. Please ensure it is a valid text-based PDF.").

Definition extractTextFromPdf (pdfjs : Pdfjs) (file : File) : Result jstr :=
  match
    bindR (arrayBuffer file) (fun buf =>
    bindR (getDocument pdfjs buf) (fun pdf =>
    pagesFrom pdf 1 (numPages pdf) []))
  with
  | Ok fullText => Ok fullText
  | Throw _ => Throw extractionFailure
  end.

(** The document has the text contents [pages], page after page. *)
Definition readable (pdf : PDFDocumentProxy) (pages : list TextContent) : Prop :=
  length pages = numPages pdf
  /\ forall k tc, pages !! k = Some tc ->
       exists page, getPage pdf (S k) = Ok page /\ getTextContent page = Ok tc.

(** Page [i] cannot be fetched, or its text cannot be read. *)
Definition page_fails (pdf : PDFDocumentProxy) (i : nat) : Prop :=
  (exists e, getPage pdf i = Throw e)
  \/ (exists page e, getPage pdf i = Ok page /\ getTextContent page = Throw e).

End PdfUtils.

(** ** Sample inputs *)

Module Samples.

Import GeminiService.

(** A reply with leading prose and a fenced object, as in the
    specification's example. *)
Definition reply_inner : jstr :=
  q "'overall_plagiarism_risk':10,'category':'no_issue','summary':['ok'],'matches':[]".
Definition reply_object : jstr := "{"%char :: reply_inner ++ ["}"%char].
Definition reply_pre : jstr := lit "Sure! ```json" ++ [nl].
Definition reply_post : jstr := [nl] ++ lit "```".
Definition reply_fenced : jstr := reply_pre ++ reply_object ++ reply_post.

Definition reply_value : JSON.value :=
  JSON.Object
    [ (JSON.str (lit "overall_plagiarism_risk"), JSON.Number (lit "10"));
      (JSON.str (lit "category"), JSON.Str (JSON.str (lit "no_issue")));
      (JSON.str (lit "summary"), JSON.Array [JSON.Str (JSON.str (lit "ok"))]);
      (JSON.str (lit "matches"), JSON.Array []) ].

(** The grounding chunks of the specification's example. *)
Definition chunk (u t : option jstr) : GroundingChunk :=
  {| web := Some {| uri := u; title := t |} |}.

Definition chunks_example : list GroundingChunk :=
  [ chunk (Some (lit "a")) (Some (lit "A"));
    chunk (Some (lit "a")) (Some (lit "A2"));
    chunk None None ].

Definition grounded (raw : jstr) (chunks : list GroundingChunk)
    : GenerateContentResponse :=
  {| text := Some raw;
     candidates :=
       Some [ {| groundingMetadata :=
                   Some {| groundingChunks := Some chunks |} |} ] |}.

(** A host with the given credential (or none) whose model answers every
    request with the given response. *)
Definition host_of (key : option jstr) (response : GenerateContentResponse) : Host :=
  {| API_KEY := key;
     generateContent := fun _ => Ok response;
     typeErrorMessage := lit "Cannot create property" |}.

Definition source_a_A2 : Types.WebSource :=
  {| Types.uri := lit "a"; Types.title := lit "A2" |}.
Definition source_a_A : Types.WebSource :=
  {| Types.uri := lit "a"; Types.title := lit "A" |}.

(** A state with a document, no reference, and web search switched on. *)
Definition web_only : App.AppState :=
  {| App.documentText := lit "Some essay.";
     App.documentType := lit "Research Paper";
     App.references := [];
     App.isAnalyzing := false;
     App.result := None;
     App.error := None;
     App.isProcessingFile := false;
     App.useWebSearch := true |}.

(** A state with a blank document. *)
Definition blank_document : App.AppState :=
  {| App.documentText := lit "   ";
     App.documentType := lit "Research Paper";
     App.references :=
       [ {| Types.id := lit "REF-001"; Types.sourceType := Types.PAPER;
            Types.text := lit "A source."; Types.isExpanded := Some true |} ];
     App.isAnalyzing := false;
     App.result := None;
     App.error := None;
     App.isProcessingFile := false;
     App.useWebSearch := true |}.

(** A reference whose text quotes the start delimiter. *)
Definition quoting_reference : Types.ReferenceItem :=
  {| Types.id := lit "REF-001";
     Types.sourceType := Types.WEBSITE;
     Types.text := lit "see ---REFERENCE_START--- in the manual";
     Types.isExpanded := Some true |}.

(** A document of one page with the single text item a, and a file that
    holds it. *)
Definition one_page : PdfUtils.PDFDocumentProxy :=
  {| PdfUtils.numPages := 1;
     PdfUtils.getPage := fun _ =>
       Ok {| PdfUtils.getTextContent :=
               Ok {| PdfUtils.items := [ {| PdfUtils.str := Some (lit "a") |} ] |} |} |}.

Definition one_page_content : PdfUtils.TextContent :=
  {| PdfUtils.items := [ {| PdfUtils.str := Some (lit "a") |} ] |}.

Definition pdfjs_one_page : PdfUtils.Pdfjs :=
  {| PdfUtils.getDocument := fun _ => Ok one_page |}.

Definition pdfjs_rejecting : PdfUtils.Pdfjs :=
  {| PdfUtils.getDocument := fun _ => Throw (Error (lit "Invalid PDF structure.")) |}.

Definition some_file : PdfUtils.File :=
  {| PdfUtils.arrayBuffer := Ok [37; 80; 68; 70]%N |}.

(** A reply without any brace. *)
Definition reply_plain : jstr := lit "```no analysis```".

(** A fenced object one of whose strings holds three backquotes. *)
Definition quoting_object : jstr := q "{'summary':['use ``` for code']}".
Definition quoting_reply : jstr :=
  lit "```json" ++ [nl] ++ quoting_object ++ [nl] ++ lit "```".

(** An object after prose that has a brace of its own. *)
Definition braces_object : jstr := q "{'summary':[]}".
Definition braces_reply : jstr := lit "Result {final}: " ++ braces_object.

End Samples.

(** ** File inputs: what both upload handlers read *)

Module Files.

Import GeminiService.

(** A selected file: its declared type, its bytes as the PDF extraction
    reads them, and its decoded text. *)
Record FileHandle := {
  type : jstr;
  bytes : PdfUtils.File;
  text : Result jstr
}.

(** [file.type === 'application/pdf' ? await extractTextFromPdf(file)
    : await file.text()]. *)
Definition readFile (pdfjs : PdfUtils.Pdfjs) (file : FileHandle) : Result jstr :=
  if decide (type file = lit "application/pdf")
  then PdfUtils.extractTextFromPdf pdfjs (bytes file)
  else text file.

End Files.

(** ** App.tsx: the document upload *)

Module AppFiles.

Import GeminiService App.

Definition setDocumentText (t : jstr) (st : AppState) : AppState :=
  {| documentText := t; documentType := documentType st;
     references := references st; isAnalyzing := isAnalyzing st;
     result := result st; error := error st;
     isProcessingFile := isProcessingFile st; useWebSearch := useWebSearch st |}.

Definition setIsProcessingFile (b : bool) (st : AppState) : AppState :=
  {| documentText := documentText st; documentType := documentType st;
     references := references st; isAnalyzing := isAnalyzing st;
     result := result st; error := error st;
     isProcessingFile := b; useWebSearch := useWebSearch st |}.

(** [err.message || "Failed to read file."]. *)
Definition readErrorMessage (e : exn) : jstr :=
  if truthy (message e) then message e else lit "Failed to read file.".

(** The state once the handler has settled; [file] is
    [e.target.files?.[0]]. *)
Definition handleFileUpload (pdfjs : PdfUtils.Pdfjs)
    (file : option Files.FileHandle) (st : AppState) : AppState :=
  match file with
  | None => st
  | Some f =>
      let st1 := setError None (setIsProcessingFile true st) in
      let st2 :=
        match Files.readFile pdfjs f with
        | Ok text => setDocumentText text st1
        | Throw err => setError (Some (readErrorMessage err)) st1
        end in
      setIsProcessingFile false st2
  end.

End AppFiles.

(** ** components/ReferenceList.tsx: the rows and the reference upload *)

Module ReferenceListView.

Import GeminiService ReferenceList.

(** The summary line of a row: [ref.text ? (ref.text.substring(0, 40) +
    (ref.text.length > 40 ? '...' : '')) : 'Empty Reference']. *)
Definition preview (ref : Types.ReferenceItem) : jstr :=
  if truthy (Types.text ref)
  then substring (Types.text ref) 0 40
       ++ (if (40 <? length (Types.text ref))%nat then lit "..." else [])
  else lit "Empty Reference".

(** [disabled={processingId === ref.id}]. *)
Definition uploadDisabled (processingId : option jstr)
    (ref : Types.ReferenceItem) : bool :=
  match processingId with
  | Some p => bool_decide (p = Types.id ref)
  | None => false
  end.

(** One run of the upload handler: the successive values given to
    [processingId], the alerts shown, and the array handed to [onUpdate],
    if any. *)
Record upload := {
  processingIds : list (option jstr);
  alerts : list jstr;
  onUpdate : option store
}.

(** The handler of the render that showed [st].  [None]: the row does not
    exist and reading its id throws. *)
Definition handleFileUpload (pdfjs : PdfUtils.Pdfjs) (index : nat)
    (file : option Files.FileHandle) (st : store) : option upload :=
  match file with
  | None => Some {| processingIds := []; alerts := []; onUpdate := None |}
  | Some f =>
      match references st !! index with
      | None => None
      | Some l =>
          match heap st !! l with
          | None => None
          | Some r =>
              let refId := Types.id r in
              match Files.readFile pdfjs f with
              | Ok text =>
                  match updateReference index F_text text st with
                  | Some st' =>
                      Some {| processingIds := [Some refId; None];
                              alerts := [];
                              onUpdate := Some st' |}
                  | None => None
                  end
              | Throw _ =>
                  Some {| processingIds := [Some refId; None];
                          alerts :=
                            [lit "Failed to read file. Please check if it is a valid PDF or Text file."];
                          onUpdate := None |}
              end
          end
      end
  end.


End ReferenceListView.

(** ** components/AnalysisView.tsx: the chart, the icon and the labels *)

Module AnalysisViewChart.

(** [riskColorHex]: the fill of the risk slice of the chart. *)
Definition riskColorHex (score : Z) : jstr :=
  if (score <? 50)%Z then lit "#22c55e"
  else if (score <? 80)%Z then lit "#f97316"
  else lit "#ef4444".

Inductive Icon := CheckCircle | AlertTriangle | AlertOctagon.

Definition riskIcon (score : Z) : Icon :=
  if (score <? 20)%Z then CheckCircle
  else if (score <? 80)%Z then AlertTriangle
  else AlertOctagon.

(** [riskData]: the two slices of the chart. *)
Definition riskData (score : Z) : list (jstr * Z) :=
  [ (lit "Risk", score); (lit "Safe", (100 - score)%Z) ].








End AnalysisViewChart.

(** ** The result object as the view reads it *)

Module ResultObject.

Import GeminiService.

(** [value[key]] for a parsed value: the member of an object (the last one
    of several with that key), nothing for any other value. *)
Definition ownMember (key : jstr) (v : JSON.value) : option JSON.value :=
  match v with
  | JSON.Object members =>
      option_map snd (last (filter (fun m => fst m = JSON.str key) members))
  | _ => None
  end.

(** [result.webSources]: what the client assigned, or else the member the
    reply itself has. *)
Inductive member :=
| Assigned (sources : list Types.WebSource)
| Own (v : JSON.value)
| Absent.

Definition webSources (res : AnalysisResult) : member :=
  match result_webSources res with
  | Some ws => Assigned ws
  | None =>
      match ownMember (lit "webSources") (parsed res) with
      | Some v => Own v
      | None => Absent
      end
  end.

End ResultObject.

(** ** More sample inputs *)

Module MoreSamples.

Import GeminiService.



Definition pdf_file : Files.FileHandle :=
  {| Files.type := lit "application/pdf";
     Files.bytes := Samples.some_file;
     Files.text := Ok (lit "%PDF") |}.

Definition text_file : Files.FileHandle :=
  {| Files.type := lit "text/plain";
     Files.bytes := Samples.some_file;
     Files.text := Ok (lit "An essay.") |}.

Definition unreadable_file : Files.FileHandle :=
  {| Files.type := lit "text/plain";
     Files.bytes := Samples.some_file;
     Files.text := Throw (Error []) |}.


Definition reply_with_sources : jstr :=
  q "{'summary':[],'webSources':[{'uri':'x','title':'X'}]}".

Definition own_sources : JSON.value :=
  JSON.Array
    [ JSON.Object
        [ (JSON.str (lit "uri"), JSON.Str (JSON.str (lit "x")));
          (JSON.str (lit "title"), JSON.Str (JSON.str (lit "X"))) ] ].

Definition ungrounded (raw : jstr) : GenerateContentResponse :=
  {| text := Some raw; candidates := None |}.

(** Two references. *)
Definition two_references : ReferenceList.store :=
  ReferenceList.addReference (ReferenceList.addReference ReferenceList.empty).

(** A host whose model refuses every request. *)
Definition failing_host (msg : jstr) : Host :=
  {| API_KEY := Some (lit "key");
     generateContent := fun _ => Throw (Error msg);
     typeErrorMessage := lit "Cannot create property" |}.

End MoreSamples.

(** * Facts about the text primitives *)

Section Scanning.

Variable eqc : ascii -> ascii -> bool.
Variable pat : jstr.

Lemma scan_skip (k : nat) (s : jstr) :
  scan eqc pat k s = scan eqc pat 0 (skipn k s).
Proof.
  revert k. induction s as [|c s IH]; intros [|k]; simpl; try reflexivity.
  apply IH.
Qed.

Lemma starts_with_length (s : jstr) :
  starts_with eqc pat s = true -> length pat <= length s.
Proof.
  revert s. induction pat as [|p pat' IH]; intros s; [simpl; lia|].
  destruct s as [|c s]; simpl; [discriminate|].
  intros H. apply andb_true_iff in H as [_ H]. apply IH in H. lia.
Qed.

(** The pass, one match at a time. *)
Lemma scan_step (c : ascii) (s : jstr) :
  pat <> [] ->
  scan eqc pat 0 (c :: s) =
  if starts_with eqc pat (c :: s)
  then Hit :: scan eqc pat 0 (skipn (length pat) (c :: s))
  else Lit c :: scan eqc pat 0 s.
Proof.
  intros Hne. cbn [scan]. destruct (starts_with eqc pat (c :: s)); [|reflexivity].
  rewrite scan_skip. destruct pat as [|p pat']; [congruence|].
  replace (length (p :: pat') - 1) with (length pat') by (simpl; lia).
  reflexivity.
Qed.

Lemma starts_with_sep (a b : jstr) (c : ascii) :
  (forall p, In p pat -> eqc p c = false) ->
  starts_with eqc pat (a ++ c :: b) = starts_with eqc pat a.
Proof.
  revert a. induction pat as [|p pat' IH]; intros a Hc; [destruct a; reflexivity|].
  destruct a as [|x a]; simpl.
  - rewrite Hc by (left; reflexivity). reflexivity.
  - f_equal. apply IH. intros p' Hp'. apply Hc. right. exact Hp'.
Qed.

(** A character that occurs nowhere in the pattern cuts the text into two
    parts that are scanned independently. *)
Lemma scan_sep (a b : jstr) (c : ascii) :
  pat <> [] ->
  (forall p, In p pat -> eqc p c = false) ->
  scan eqc pat 0 (a ++ c :: b) = scan eqc pat 0 a ++ Lit c :: scan eqc pat 0 b.
Proof.
  intros Hne Hc.
  remember (length a) as n eqn:Hn. revert a Hn.
  induction n as [n IH] using lt_wf_ind. intros a Hn.
  destruct a as [|x a].
  - cbn [app]. rewrite scan_step by assumption.
    destruct pat as [|p pat'] eqn:Hp; [congruence|].
    cbn [starts_with]. rewrite Hc by (left; reflexivity). reflexivity.
  - change ((x :: a) ++ c :: b) with (x :: (a ++ c :: b)).
    rewrite !scan_step by assumption.
    change (x :: (a ++ c :: b)) with ((x :: a) ++ c :: b).
    rewrite starts_with_sep by assumption.
    destruct (starts_with eqc pat (x :: a)) eqn:Hm.
    + apply starts_with_length in Hm.
      rewrite skipn_app.
      replace (length pat - length (x :: a)) with 0 by lia.
      cbn [skipn]. cbn [app]. f_equal.
      assert (Hpos : 0 < length pat) by (destruct pat; [congruence|simpl; lia]).
      apply (IH (length (skipn (length pat) (x :: a)))); [|reflexivity].
      rewrite length_skipn. subst n. simpl in *. lia.
    + cbn [app]. f_equal. apply (IH (length a)); [subst n; simpl; lia|reflexivity].
Qed.

Lemma scan_no_occurs (s : jstr) :
  occurs eqc pat s = false -> scan eqc pat 0 s = map Lit s.
Proof.
  induction s as [|c s IH]; [reflexivity|].
  cbn [occurs]. intros H. apply orb_false_iff in H as [H1 H2].
  cbn [scan]. rewrite H1. cbn [map]. f_equal. apply IH, H2.
Qed.

(** With the empty replacement a pass only deletes characters. *)
Lemma scan_deletes (c : ascii) (s : jstr) (k : nat) :
  In c (flat_map (render []) (scan eqc pat k s)) -> In c s.
Proof.
  revert k. induction s as [|x s IH]; intros k; [simpl; tauto|].
  destruct k as [|k]; cbn [scan].
  - destruct (starts_with eqc pat (x :: s)); cbn [flat_map render app].
    + intros H. right. eapply IH, H.
    + intros [H|H]; [left; exact H|right; eapply IH, H].
  - intros H. right. eapply IH, H.
Qed.

End Scanning.

Lemma render_lits (rep s : jstr) : flat_map (render rep) (map Lit s) = s.
Proof. induction s as [|c s IH]; [reflexivity|]. simpl. f_equal. exact IH. Qed.

Lemma hits_lits (s : jstr) :
  filter (fun p => is_hit p = true) (map Lit s) = [].
Proof. induction s as [|c s IH]; [reflexivity|]. exact IH. Qed.

(** Induction along the matches of a pass. *)
Lemma scan_ind (eqc : ascii -> ascii -> bool) (pat : jstr) (P : jstr -> Prop) :
  pat <> [] ->
  P [] ->
  (forall c s, starts_with eqc pat (c :: s) = true ->
               P (skipn (length pat) (c :: s)) -> P (c :: s)) ->
  (forall c s, starts_with eqc pat (c :: s) = false -> P s -> P (c :: s)) ->
  forall s, P s.
Proof.
  intros Hne Hnil Hhit Hlit s.
  remember (length s) as n eqn:Hn. revert s Hn.
  induction n as [n IH] using lt_wf_ind. intros [|c s] Hn; [exact Hnil|].
  destruct (starts_with eqc pat (c :: s)) eqn:Hm.
  - apply Hhit; [exact Hm|].
    apply (IH (length (skipn (length pat) (c :: s)))); [|reflexivity].
    rewrite length_skipn. subst n. destruct pat; [congruence|]. simpl. lia.
  - apply Hlit; [exact Hm|]. apply (IH (length s)); [subst n; simpl; lia|reflexivity].
Qed.

Lemma occurs_app_l (eqc : ascii -> ascii -> bool) (pat a b : jstr) :
  occurs eqc pat (a ++ b) = false -> occurs eqc pat a = false.
Proof.
  assert (Hsw : forall p x y, starts_with eqc p x = true ->
                              starts_with eqc p (x ++ y) = true).
  { induction p as [|p0 p IH]; intros [|x0 x] y; simpl; try congruence.
    intros H. apply andb_true_iff in H as [H1 H2].
    rewrite H1. simpl. apply IH, H2. }
  induction a as [|c a IH]; cbn [occurs app].
  - intros H. rewrite orb_false_r.
    destruct (starts_with eqc pat []) eqn:E; [|reflexivity].
    pose proof (Hsw pat [] b E) as E'. cbn [app] in E'.
    destruct b as [|c b]; cbn [occurs] in H; rewrite E' in H; discriminate.
  - intros H. apply orb_false_iff in H as [H1 H2].
    rewrite (IH H2), orb_false_r.
    destruct (starts_with eqc pat (c :: a)) eqn:E; [|reflexivity].
    change (c :: a ++ b) with ((c :: a) ++ b) in H1.
    rewrite (Hsw pat (c :: a) b E) in H1. discriminate.
Qed.

Lemma occurs_tail (eqc : ascii -> ascii -> bool) (pat : jstr) (c : ascii) (s : jstr) :
  occurs eqc pat (c :: s) = false -> occurs eqc pat s = false.
Proof. cbn [occurs]. intros H. apply orb_false_iff in H as [_ H]. exact H. Qed.

(** *** indexOf, lastIndexOf, substring *)

Lemma indexOf_lower (c : ascii) (s : jstr) : (-1 <= indexOf c s)%Z.
Proof.
  induction s as [|x s IH]; simpl; [lia|].
  destruct (Ascii.eqb x c); [lia|].
  destruct (indexOf c s =? -1)%Z; lia.
Qed.

Lemma lastIndexOf_lower (c : ascii) (s : jstr) : (-1 <= lastIndexOf c s)%Z.
Proof.
  induction s as [|x s IH]; simpl; [lia|].
  destruct (lastIndexOf c s =? -1)%Z; [destruct (Ascii.eqb x c); lia|lia].
Qed.

Lemma indexOf_absent (c : ascii) (s : jstr) :
  indexOf c s = (-1)%Z <-> ~ In c s.
Proof.
  induction s as [|x s IH]; simpl; [tauto|].
  destruct (Ascii.eqb_spec x c) as [->|Hne].
  - split; [discriminate|]. intros H. exfalso. apply H. left. reflexivity.
  - pose proof (indexOf_lower c s).
    destruct (Z.eqb_spec (indexOf c s) (-1)) as [E|E].
    + split; [|reflexivity]. intros _ [H1|H1]; [congruence|]. apply IH in E. tauto.
    + split; [lia|]. intros H1. exfalso. apply E, IH. tauto.
Qed.

Lemma lastIndexOf_absent (c : ascii) (s : jstr) :
  lastIndexOf c s = (-1)%Z <-> ~ In c s.
Proof.
  induction s as [|x s IH]; simpl; [tauto|].
  pose proof (lastIndexOf_lower c s).
  destruct (Z.eqb_spec (lastIndexOf c s) (-1)) as [E|E].
  - destruct (Ascii.eqb_spec x c) as [->|Hne].
    + split; [discriminate|]. intros H1. exfalso. apply H1. left. reflexivity.
    + split; [|reflexivity]. intros _ [H1|H1]; [congruence|]. apply IH in E. tauto.
  - split; [lia|]. intros H1. exfalso. apply E, IH. tauto.
Qed.

Lemma indexOf_first_at (c : ascii) (s : jstr) :
  indexOf c s <> (-1)%Z ->
  exists i, indexOf c s = Z.of_nat i /\ first_at c s i.
Proof.
  induction s as [|x s IH]; simpl; [congruence|].
  destruct (Ascii.eqb_spec x c) as [->|Hne].
  - intros _. exists 0. split; [reflexivity|]. split; [reflexivity|]. intros k Hk. lia.
  - destruct (Z.eqb_spec (indexOf c s) (-1)) as [E|E]; [congruence|].
    intros _. destruct (IH E) as (i & Hi & Hat & Hbefore).
    exists (S i). split; [lia|]. split; [exact Hat|].
    intros [|k] Hk; simpl; [congruence|]. apply Hbefore. lia.
Qed.

Lemma lastIndexOf_last_at (c : ascii) (s : jstr) :
  lastIndexOf c s <> (-1)%Z ->
  exists j, lastIndexOf c s = Z.of_nat j /\ last_at c s j.
Proof.
  induction s as [|x s IH]; simpl; [congruence|].
  destruct (Z.eqb_spec (lastIndexOf c s) (-1)) as [E|E].
  - destruct (Ascii.eqb_spec x c) as [->|Hne]; [|congruence].
    intros _. exists 0. split; [reflexivity|]. split; [reflexivity|].
    intros [|k] Hk; [lia|]. simpl. intros Hk'.
    apply lastIndexOf_absent in E. apply E.
    apply list_elem_of_In, list_elem_of_lookup. eauto.
  - intros _. destruct (IH E) as (j & Hj & Hat & Hafter).
    exists (S j). split; [lia|]. split; [exact Hat|].
    intros [|k] Hk; [lia|]. simpl. apply Hafter. lia.
Qed.

Lemma first_at_unique (c : ascii) (s : jstr) (i i' : nat) :
  first_at c s i -> first_at c s i' -> i = i'.
Proof.
  intros [H1 H2] [H1' H2'].
  destruct (Nat.lt_trichotomy i i') as [H|[H|H]]; [|exact H|].
  - exfalso. exact (H2' _ H H1).
  - exfalso. exact (H2 _ H H1').
Qed.

Lemma last_at_unique (c : ascii) (s : jstr) (j j' : nat) :
  last_at c s j -> last_at c s j' -> j = j'.
Proof.
  intros [H1 H2] [H1' H2'].
  destruct (Nat.lt_trichotomy j j') as [H|[H|H]]; [|exact H|].
  - exfalso. exact (H2 _ H H1').
  - exfalso. exact (H2' _ H H1).
Qed.

Lemma substring_slice (s : jstr) (i j : nat) :
  i <= j -> j < length s ->
  substring s (Z.of_nat i) (Z.of_nat j + 1) = firstn (j + 1 - i) (skipn i s).
Proof.
  intros Hij Hj. unfold substring, clamp.
  replace (Z.min (Z.max (Z.of_nat i) 0) (Z.of_nat (length s))) with (Z.of_nat i) by lia.
  replace (Z.min (Z.max (Z.of_nat j + 1) 0) (Z.of_nat (length s)))
    with (Z.of_nat j + 1)%Z by lia.
  replace (Z.min (Z.of_nat i) (Z.of_nat j + 1)) with (Z.of_nat i) by lia.
  replace (Z.max (Z.of_nat i) (Z.of_nat j + 1)) with (Z.of_nat j + 1)%Z by lia.
  rewrite Nat2Z.id. f_equal. lia.
Qed.

Lemma indexOf_app_fresh (c : ascii) (a b : jstr) :
  ~ In c a -> indexOf c (a ++ c :: b) = Z.of_nat (length a).
Proof.
  induction a as [|x a IH]; intros Hin.
  - simpl. rewrite Ascii.eqb_refl. reflexivity.
  - cbn [app indexOf length].
    destruct (Ascii.eqb_spec x c) as [->|Hne]; [exfalso; apply Hin; left; reflexivity|].
    rewrite IH by (intros H; apply Hin; right; exact H).
    destruct (Z.eqb_spec (Z.of_nat (length a)) (-1)); lia.
Qed.

Lemma lastIndexOf_app_fresh (c : ascii) (a b : jstr) :
  ~ In c b -> lastIndexOf c (a ++ c :: b) = Z.of_nat (length a).
Proof.
  intros Hin. induction a as [|x a IH].
  - cbn [app lastIndexOf length]. apply lastIndexOf_absent in Hin. rewrite Hin.
    rewrite Ascii.eqb_refl. reflexivity.
  - cbn [app lastIndexOf length]. rewrite IH.
    destruct (Z.eqb_spec (Z.of_nat (length a)) (-1)); lia.
Qed.

Lemma replace_sep (eqc : ascii -> ascii -> bool) (pat rep a b : jstr) (c : ascii) :
  pat <> [] ->
  (forall p, In p pat -> eqc p c = false) ->
  flat_map (render rep) (scan eqc pat 0 (a ++ c :: b)) =
  flat_map (render rep) (scan eqc pat 0 a)
  ++ c :: flat_map (render rep) (scan eqc pat 0 b).
Proof.
  intros Hne Hc. rewrite scan_sep by assumption.
  rewrite flat_map_app. reflexivity.
Qed.

Lemma replace_no_occurs (eqc : ascii -> ascii -> bool) (pat rep s : jstr) :
  occurs eqc pat s = false ->
  flat_map (render rep) (scan eqc pat 0 s) = s.
Proof. intros H. rewrite scan_no_occurs by exact H. apply render_lits. Qed.

(** * The analysis client: cleaning the reply *)

Section Fences.

Import GeminiService.

#[local] Abbreviation bt := ("`"%char).

Lemma eq_ci_backtick (c : ascii) : eq_ci bt c = true -> c = bt.
Proof.
  destruct c as [[] [] [] [] [] [] [] []]; vm_compute; congruence.
Qed.

Lemma fence_json_starts_fence (s : jstr) :
  starts_with eq_ci FENCE_JSON s = true -> starts_with Ascii.eqb FENCE s = true.
Proof.
  destruct s as [|a [|b [|c s]]]; intros H.
  1-3: exfalso; cbn in H;
    repeat (apply andb_true_iff in H as [_ H]); discriminate.
  - change (starts_with eq_ci FENCE_JSON (a :: b :: c :: s))
      with (eq_ci bt a && (eq_ci bt b && (eq_ci bt c
            && starts_with eq_ci (lit "json") s))) in H.
    apply andb_true_iff in H as [Ha H].
    apply andb_true_iff in H as [Hb H]. apply andb_true_iff in H as [Hc _].
    apply eq_ci_backtick in Ha, Hb, Hc. subst. reflexivity.
Qed.

Lemma no_fence_no_fence_json (s : jstr) :
  occurs Ascii.eqb FENCE s = false -> occurs eq_ci FENCE_JSON s = false.
Proof.
  induction s as [|c s IH]; cbn [occurs].
  - intros _. reflexivity.
  - intros H. apply orb_false_iff in H as [H1 H2]. rewrite (IH H2), orb_false_r.
    destruct (starts_with eq_ci FENCE_JSON (c :: s)) eqn:E; [|reflexivity].
    apply fence_json_starts_fence in E. congruence.
Qed.

Lemma stripFences_clean (s : jstr) :
  includes FENCE s = false -> stripFences s = s.
Proof.
  intros H. unfold stripFences, replace_g, replace_gi.
  rewrite (replace_no_occurs eq_ci) by (apply no_fence_no_fence_json, H).
  apply replace_no_occurs, H.
Qed.

Lemma FENCE_nonempty : FENCE <> [].
Proof. discriminate. Qed.

Lemma FENCE_JSON_nonempty : FENCE_JSON <> [].
Proof. discriminate. Qed.

Lemma brace_not_in_fence (c : ascii) :
  c = "{"%char \/ c = "}"%char ->
  (forall p, In p FENCE -> Ascii.eqb p c = false)
  /\ (forall p, In p FENCE_JSON -> eq_ci p c = false).
Proof.
  intros [-> | ->]; split; intros p Hp; cbn in Hp;
    repeat (destruct Hp as [<-|Hp]; [reflexivity|]); destruct Hp.
Qed.

(** Fences are removed on each side of a brace independently. *)
Lemma stripFences_brace (a b : jstr) (c : ascii) :
  c = "{"%char \/ c = "}"%char ->
  stripFences (a ++ c :: b) = stripFences a ++ c :: stripFences b.
Proof.
  intros Hc. destruct (brace_not_in_fence c Hc) as [H1 H2].
  unfold stripFences, replace_g, replace_gi.
  rewrite (replace_sep eq_ci) by (exact FENCE_JSON_nonempty || exact H2).
  rewrite (replace_sep Ascii.eqb) by (exact FENCE_nonempty || exact H1).
  reflexivity.
Qed.

Lemma stripFences_deletes (c : ascii) (s : jstr) :
  In c (stripFences s) -> In c s.
Proof.
  unfold stripFences, replace_g, replace_gi. intros H.
  apply scan_deletes in H. apply scan_deletes in H. exact H.
Qed.

(** After the second pass no run of three backquotes is left. *)
Lemma starts_with_cons (eqc : ascii -> ascii -> bool) (p c : ascii) (pat s : jstr) :
  starts_with eqc (p :: pat) (c :: s) = eqc p c && starts_with eqc pat s.
Proof. reflexivity. Qed.

Lemma replace_fence_cons (c : ascii) (s : jstr) :
  replace_g FENCE [] (c :: s) =
  if starts_with Ascii.eqb FENCE (c :: s)
  then replace_g FENCE [] (skipn 3 (c :: s))
  else c :: replace_g FENCE [] s.
Proof.
  unfold replace_g. rewrite scan_step by exact FENCE_nonempty.
  destruct (starts_with Ascii.eqb FENCE (c :: s)); reflexivity.
Qed.

Lemma replace_fence_head1 (s : jstr) :
  starts_with Ascii.eqb [bt] (replace_g FENCE [] s) = true ->
  starts_with Ascii.eqb [bt] s = true.
Proof.
  destruct s as [|c s]; [intros H; exact H|].
  rewrite replace_fence_cons.
  destruct (starts_with Ascii.eqb FENCE (c :: s)) eqn:E.
  - intros _. change FENCE with [bt; bt; bt] in E.
    rewrite starts_with_cons in E. apply andb_true_iff in E as [E _].
    rewrite starts_with_cons, E. reflexivity.
  - rewrite !starts_with_cons. intros H. apply andb_true_iff in H as [H _].
    rewrite H. reflexivity.
Qed.

Lemma replace_fence_head2 (s : jstr) :
  starts_with Ascii.eqb [bt; bt] (replace_g FENCE [] s) = true ->
  starts_with Ascii.eqb [bt; bt] s = true.
Proof.
  destruct s as [|c s]; [intros H; exact H|].
  rewrite replace_fence_cons.
  destruct (starts_with Ascii.eqb FENCE (c :: s)) eqn:E.
  - intros _. change FENCE with [bt; bt; bt] in E.
    destruct s as [|d s]; rewrite starts_with_cons in E;
      apply andb_true_iff in E as [E1 E]; [discriminate E|].
    rewrite starts_with_cons in E. apply andb_true_iff in E as [E2 _].
    rewrite !starts_with_cons, E1, E2. reflexivity.
  - rewrite (starts_with_cons _ _ _ _ (replace_g FENCE [] s)).
    intros H. apply andb_true_iff in H as [H1 H2].
    apply replace_fence_head1 in H2.
    destruct s as [|d s]; [discriminate H2|].
    rewrite starts_with_cons in H2. apply andb_true_iff in H2 as [H2 _].
    rewrite !starts_with_cons, H1, H2. reflexivity.
Qed.

Lemma replace_fence_no_fence (s : jstr) :
  includes FENCE (replace_g FENCE [] s) = false.
Proof.
  unfold includes. revert s.
  apply (scan_ind Ascii.eqb FENCE
           (fun s => occurs Ascii.eqb FENCE (replace_g FENCE [] s) = false));
    [exact FENCE_nonempty | reflexivity | intros c s Hm IH | intros c s Hm IH].
  - rewrite replace_fence_cons, Hm. exact IH.
  - rewrite replace_fence_cons, Hm.
    cbn [occurs]. rewrite IH, orb_false_r.
    destruct (starts_with Ascii.eqb FENCE (c :: replace_g FENCE [] s)) eqn:E;
      [|reflexivity].
    exfalso. change FENCE with [bt; bt; bt] in E, Hm.
    rewrite starts_with_cons in E, Hm.
    apply andb_true_iff in E as [E1 E2].
    apply (replace_fence_head2 s) in E2.
    rewrite E1, E2 in Hm. discriminate.
Qed.

End Fences.

Section Cleanup.

Import GeminiService.

#[local] Abbreviation lbrace := ("{"%char).
#[local] Abbreviation rbrace := ("}"%char).

Lemma lookup_In (s : jstr) (i : nat) (c : ascii) : s !! i = Some c -> In c s.
Proof. intros H. apply list_elem_of_In, list_elem_of_lookup. eauto. Qed.

Lemma jsonText_slice (raw : jstr) :
  brace_pair (stripFences raw) ->
  exists i j, first_at lbrace (stripFences raw) i
    /\ last_at rbrace (stripFences raw) j /\ i < j
    /\ jsonText raw = firstn (j + 1 - i) (skipn i (stripFences raw)).
Proof.
  intros (i0 & j0 & Hlt & Hi0 & Hj0). unfold jsonText.
  set (t := stripFences raw) in *.
  assert (Ho : indexOf lbrace t <> (-1)%Z).
  { intros E. apply indexOf_absent in E. apply E. eapply lookup_In, Hi0. }
  assert (Hc : lastIndexOf rbrace t <> (-1)%Z).
  { intros E. apply lastIndexOf_absent in E. apply E. eapply lookup_In, Hj0. }
  destruct (indexOf_first_at _ _ Ho) as (i & Ei & Hfirst).
  destruct (lastIndexOf_last_at _ _ Hc) as (j & Ej & Hlast).
  assert (Hi : i <= i0).
  { destruct (Nat.le_gt_cases i i0) as [H|H]; [exact H|].
    exfalso. exact (proj2 Hfirst _ H Hi0). }
  assert (Hj : j0 <= j).
  { destruct (Nat.le_gt_cases j0 j) as [H|H]; [exact H|].
    exfalso. exact (proj2 Hlast _ H Hj0). }
  exists i, j. split; [exact Hfirst|]. split; [exact Hlast|]. split; [lia|].
  rewrite Ei, Ej.
  replace (negb (Z.of_nat i =? -1)%Z) with true
    by (symmetry; apply negb_true_iff, Z.eqb_neq; lia).
  replace (negb (Z.of_nat j =? -1)%Z) with true
    by (symmetry; apply negb_true_iff, Z.eqb_neq; lia).
  replace (Z.of_nat j >? Z.of_nat i)%Z with true
    by (symmetry; apply Z.gtb_lt; lia).
  cbn [andb]. apply substring_slice; [lia|].
  apply lookup_lt_Some with rbrace. exact (proj1 Hlast).
Qed.

Lemma jsonText_whole (raw : jstr) :
  ~ brace_pair (stripFences raw) -> jsonText raw = stripFences raw.
Proof.
  intros Hno. unfold jsonText. set (t := stripFences raw) in *.
  destruct (Z.eqb_spec (indexOf lbrace t) (-1)) as [E|Ho]; [reflexivity|].
  destruct (Z.eqb_spec (lastIndexOf rbrace t) (-1)) as [E|Hc]; [reflexivity|].
  cbn [negb andb].
  destruct (Z.gtb_spec (lastIndexOf rbrace t) (indexOf lbrace t)) as [Hgt|Hle];
    [|reflexivity].
  exfalso. apply Hno.
  destruct (indexOf_first_at _ _ Ho) as (i & Ei & Hfirst & _).
  destruct (lastIndexOf_last_at _ _ Hc) as (j & Ej & Hlast & _).
  exists i, j. split; [lia|]. split; assumption.
Qed.

Lemma jsonText_wrapped (pre mid post : jstr) :
  ~ In lbrace pre -> ~ In rbrace post ->
  includes FENCE (lbrace :: mid ++ [rbrace]) = false ->
  jsonText (pre ++ (lbrace :: mid ++ [rbrace]) ++ post) = lbrace :: mid ++ [rbrace].
Proof.
  intros Hpre Hpost Hobj.
  assert (Hmid : stripFences mid = mid).
  { apply stripFences_clean. unfold includes in *.
    apply occurs_tail in Hobj. eapply occurs_app_l, Hobj. }
  unfold jsonText.
  replace (pre ++ (lbrace :: mid ++ [rbrace]) ++ post)
    with (pre ++ lbrace :: (mid ++ rbrace :: post))
    by (cbn [app]; rewrite <- !app_assoc; reflexivity).
  rewrite (stripFences_brace pre _ lbrace) by (left; reflexivity).
  rewrite (stripFences_brace mid post rbrace) by (right; reflexivity).
  rewrite Hmid.
  set (P := stripFences pre). set (Q := stripFences post).
  assert (HP : ~ In lbrace P) by (intros H; apply Hpre, stripFences_deletes, H).
  assert (HQ : ~ In rbrace Q) by (intros H; apply Hpost, stripFences_deletes, H).
  rewrite (indexOf_app_fresh lbrace P _ HP).
  replace (P ++ lbrace :: mid ++ rbrace :: Q)
    with ((P ++ lbrace :: mid) ++ rbrace :: Q)
    by (rewrite <- app_assoc; reflexivity).
  rewrite (lastIndexOf_app_fresh rbrace _ Q HQ).
  rewrite length_app. cbn [length].
  replace (negb (Z.of_nat (length P) =? -1)%Z) with true
    by (symmetry; apply negb_true_iff, Z.eqb_neq; lia).
  replace (negb (Z.of_nat (length P + S (length mid)) =? -1)%Z) with true
    by (symmetry; apply negb_true_iff, Z.eqb_neq; lia).
  replace (Z.of_nat (length P + S (length mid)) >? Z.of_nat (length P))%Z with true
    by (symmetry; apply Z.gtb_lt; lia).
  cbn [andb].
  rewrite substring_slice;
    [|lia|rewrite !length_app; cbn [length]; rewrite ?length_app; cbn [length]; lia].
  rewrite <- app_assoc. rewrite skipn_app, skipn_all, Nat.sub_diag.
  cbn [app skipn].
  replace (length P + S (length mid) + 1 - length P)
    with (length (lbrace :: mid ++ [rbrace]))
    by (cbn [length]; rewrite length_app; cbn [length]; lia).
  replace (lbrace :: mid ++ rbrace :: Q) with ((lbrace :: mid ++ [rbrace]) ++ Q)
    by (cbn [app]; rewrite <- app_assoc; reflexivity).
  rewrite firstn_app, firstn_all, Nat.sub_diag. cbn [firstn]. apply app_nil_r.
Qed.

End Cleanup.

(** C1 (as amended).  For every raw reply text: after the two replacement
    passes no code fence is left; if the cleaned text has a [{] before a [}],
    the text handed to JSON.parse is the slice from the first [{] to the last
    [}] inclusive, and otherwise it is the whole cleaned text; the client
    returns the parse of that text, or the parse failure.  When the reply is
    an object text (from [{] to [}]) that holds no code fence itself, put
    after text without [{] and before text without [}], the text handed to
    the parser is the object text, so the reply parses as the object alone. *)
Theorem reply_cleanup (raw : jstr) :
  includes GeminiService.FENCE (GeminiService.stripFences raw) = false
  /\ (GeminiService.brace_pair (GeminiService.stripFences raw) ->
      exists i j,
        first_at "{"%char (GeminiService.stripFences raw) i
        /\ last_at "}"%char (GeminiService.stripFences raw) j
        /\ i < j
        /\ GeminiService.jsonText raw =
           firstn (j + 1 - i) (skipn i (GeminiService.stripFences raw)))
  /\ (~ GeminiService.brace_pair (GeminiService.stripFences raw) ->
      GeminiService.jsonText raw = GeminiService.stripFences raw)
  /\ (forall host response,
        GeminiService.text response = Some raw -> raw <> [] ->
        GeminiService.readReply host false response =
        match JSON.parse (GeminiService.jsonText raw) with
        | Some v =>
            GeminiService.Ok
              {| GeminiService.parsed := v;
                 GeminiService.result_webSources := None |}
        | None =>
            GeminiService.Throw (GeminiService.Error (lit
              "Failed to parse analysis results. The AI response was not valid JSON."))
        end)
  /\ (forall pre mid post,
        raw = pre ++ ("{"%char :: mid ++ ["}"%char]) ++ post ->
        ~ In "{"%char pre -> ~ In "}"%char post ->
        includes GeminiService.FENCE ("{"%char :: mid ++ ["}"%char]) = false ->
        GeminiService.jsonText raw = "{"%char :: mid ++ ["}"%char]
        /\ JSON.parse (GeminiService.jsonText raw)
           = JSON.parse ("{"%char :: mid ++ ["}"%char])).
Proof.
  split; [apply replace_fence_no_fence|].
  split; [apply jsonText_slice|].
  split; [apply jsonText_whole|].
  split.
  - intros host response Htext Hne.
    unfold GeminiService.readReply. rewrite Htext.
    destruct raw as [|c raw']; [congruence|].
    cbn [truthy GeminiService.bindR]. unfold GeminiService.parseReply.
    destruct (JSON.parse (GeminiService.jsonText (c :: raw'))); reflexivity.
  - intros pre mid post -> Hpre Hpost Hobj.
    rewrite (jsonText_wrapped pre mid post Hpre Hpost Hobj).
    split; reflexivity.
Qed.

Lemma not_In_chars (c : ascii) (s : jstr) :
  forallb (fun x => negb (Ascii.eqb x c)) s = true -> ~ In c s.
Proof.
  induction s as [|x s IH]; cbn [forallb In]; [tauto|].
  intros H. apply andb_true_iff in H as [H1 H2].
  intros [E|E]; [|exact (IH H2 E)].
  subst x. rewrite Ascii.eqb_refl in H1. discriminate.
Qed.

(** The specification's example: prose, a fence, the object, a fence. *)
Lemma reply_cleanup_witness :
  GeminiService.jsonText Samples.reply_fenced = Samples.reply_object
  /\ JSON.parse (GeminiService.jsonText Samples.reply_fenced)
     = JSON.parse Samples.reply_object
  /\ JSON.parse Samples.reply_object = Some Samples.reply_value
  /\ GeminiService.jsonText Samples.reply_plain = lit "no analysis".
Proof.
  destruct (reply_cleanup Samples.reply_fenced) as (_ & _ & _ & _ & H).
  destruct (H Samples.reply_pre Samples.reply_inner Samples.reply_post) as [H1 H2].
  - reflexivity.
  - apply not_In_chars. vm_compute. reflexivity.
  - apply not_In_chars. vm_compute. reflexivity.
  - vm_compute. reflexivity.
  - split; [exact H1|]. split; [exact H2|]. split; [vm_compute; reflexivity|].
    destruct (reply_cleanup Samples.reply_plain) as (_ & _ & H3 & _).
    rewrite H3; [vm_compute; reflexivity|].
    intros (i & j & _ & Hi & _).
    apply lookup_In in Hi. revert Hi. apply not_In_chars. vm_compute. reflexivity.
Defined.

(** C1 as stated fails: a valid object whose string holds three backquotes
    loses them, and prose with a brace of its own makes the parse fail. *)
Lemma reply_cleanup_counterexample :
  is_Some (JSON.parse Samples.quoting_object)
  /\ JSON.parse (GeminiService.jsonText Samples.quoting_reply)
     <> JSON.parse Samples.quoting_object
  /\ is_Some (JSON.parse Samples.braces_object)
  /\ JSON.parse (GeminiService.jsonText Samples.braces_reply)
     <> JSON.parse Samples.braces_object.
Proof.
  split; [vm_compute; eauto|].
  split; [vm_compute; discriminate|].
  split; [vm_compute; eauto|].
  vm_compute; discriminate.
Qed.

(** * The insertion-ordered map *)

Section MapFacts.

Context {V : Type}.
Implicit Types (m : list (jstr * V)) (k : jstr) (v : V).

Lemma get_set_eq m k v : JSMap.get k (JSMap.set k v m) = Some v.
Proof.
  induction m as [|[k' v'] m IH]; cbn [JSMap.set JSMap.get].
  - rewrite decide_True by reflexivity. reflexivity.
  - destruct (decide (k' = k)) as [E|E]; cbn [JSMap.get].
    + rewrite decide_True by exact E. reflexivity.
    + rewrite decide_False by exact E. exact IH.
Qed.

Lemma get_set_ne m k k' v : k <> k' -> JSMap.get k' (JSMap.set k v m) = JSMap.get k' m.
Proof.
  intros Hne. induction m as [|[k0 v0] m IH]; cbn [JSMap.set JSMap.get].
  - rewrite decide_False by exact Hne. reflexivity.
  - destruct (decide (k0 = k)) as [E|E]; cbn [JSMap.get].
    + subst k0. rewrite !decide_False by exact Hne. reflexivity.
    + destruct (decide (k0 = k')); [reflexivity|exact IH].
Qed.

Lemma keys_set m k v :
  map fst (JSMap.set k v m) =
  if decide (k ∈ map fst m) then map fst m else map fst m ++ [k].
Proof.
  induction m as [|[k0 v0] m IH]; cbn [JSMap.set map fst].
  - rewrite decide_False by (apply not_elem_of_nil). reflexivity.
  - destruct (decide (k0 = k)) as [E|E]; cbn [map fst].
    + subst k0. rewrite decide_True by (apply list_elem_of_here). reflexivity.
    + rewrite IH. destruct (decide (k ∈ map fst m)) as [Hin|Hin].
      * rewrite decide_True by (apply list_elem_of_further, Hin). reflexivity.
      * rewrite decide_False; [reflexivity|].
        intros H. apply elem_of_cons in H as [H|H]; [congruence|tauto].
Qed.

Lemma get_fold (es : list (jstr * V)) m k :
  JSMap.get k (fold_left (fun m e => JSMap.set (fst e) (snd e) m) es m) =
  match last (filter (fun e => fst e = k) es) with
  | Some e => Some (snd e)
  | None => JSMap.get k m
  end.
Proof.
  revert m. induction es as [|[k0 v0] es IH]; intros m; [reflexivity|].
  cbn [fold_left]. rewrite IH. rewrite filter_cons. cbn [fst].
  destruct (decide (k0 = k)) as [E|E].
  - rewrite last_cons.
    destruct (last (filter (fun e => fst e = k) es)); [reflexivity|].
    subst k0. cbn [fst snd]. apply get_set_eq.
  - destruct (last (filter (fun e => fst e = k) es)); [reflexivity|].
    cbn [fst snd]. apply get_set_ne, E.
Qed.

End MapFacts.

Lemma nub_elem (l : list jstr) (x : jstr) : x ∈ JSMap.nub l <-> x ∈ l.
Proof.
  induction l as [|k l IH]; cbn [JSMap.nub]; [reflexivity|].
  rewrite !elem_of_cons, list_elem_of_filter, IH.
  destruct (decide (x = k)); tauto.
Qed.

Lemma NoDup_nub (l : list jstr) : NoDup (JSMap.nub l).
Proof.
  induction l as [|k l IH]; cbn [JSMap.nub]; [constructor|].
  constructor.
  - rewrite list_elem_of_filter. tauto.
  - apply NoDup_filter, IH.
Qed.

Lemma filter_all {A} (P : A -> Prop) `{!forall x, Decision (P x)} (l : list A) :
  (forall x, P x) -> filter P l = l.
Proof.
  intros Hall. induction l as [|x l IH]; [reflexivity|].
  rewrite filter_cons_True by apply Hall. f_equal. exact IH.
Qed.

Section MapOrder.

Context {V : Type}.

Lemma keys_fold (es : list (jstr * V)) (m : list (jstr * V)) :
  map fst (fold_left (fun m e => JSMap.set (fst e) (snd e) m) es m) =
  map fst m ++ filter (fun x => x ∉ map fst m) (JSMap.nub (map fst es)).
Proof.
  revert m. induction es as [|[k0 v0] es IH]; intros m.
  - cbn. rewrite app_nil_r. reflexivity.
  - cbn [fold_left map fst snd JSMap.nub]. rewrite IH, keys_set.
    destruct (decide (k0 ∈ map fst m)) as [Hin|Hin].
    + rewrite filter_cons_False by tauto. f_equal.
      rewrite list_filter_filter. apply list_filter_iff.
      intros x. split; [|tauto]. intros Hx. split; [exact Hx|]. congruence.
    + rewrite filter_cons_True by exact Hin.
      rewrite <- app_assoc. cbn [app]. do 2 f_equal.
      rewrite list_filter_filter. apply list_filter_iff.
      intros x. rewrite elem_of_app, list_elem_of_singleton. tauto.
Qed.

Lemma keys_of_entries (es : list (jstr * V)) :
  map fst (JSMap.of_entries es) = JSMap.nub (map fst es).
Proof.
  unfold JSMap.of_entries. rewrite keys_fold. cbn [map app].
  apply filter_all. intros x. apply not_elem_of_nil.
Qed.

Lemma get_In (m : list (jstr * V)) (k : jstr) (v : V) :
  NoDup (map fst m) -> (k, v) ∈ m -> JSMap.get k m = Some v.
Proof.
  induction m as [|[k0 v0] m IH]; intros Hnd Hin.
  - apply elem_of_nil in Hin. destruct Hin.
  - cbn [map fst] in Hnd. apply NoDup_cons in Hnd as [Hk0 Hnd].
    cbn [JSMap.get]. apply elem_of_cons in Hin as [E|Hin].
    + injection E as -> ->. rewrite decide_True by reflexivity. reflexivity.
    + destruct (decide (k0 = k)) as [->|Hne]; [|apply IH; assumption].
      exfalso. apply Hk0. apply list_elem_of_In, in_map_iff.
      exists (k, v). split; [reflexivity|]. apply list_elem_of_In, Hin.
Qed.

End MapOrder.

(** * The analysis client: web sources *)

Section WebSources.

Import GeminiService.

Lemma entries_keyed (ws : list Types.WebSource) (k : jstr) (s : Types.WebSource) :
  (k, s) ∈ JSMap.of_entries (map entry ws) -> k = Types.uri s.
Proof.
  unfold JSMap.of_entries.
  assert (H : forall (m : list (jstr * Types.WebSource)),
             (forall k s, (k, s) ∈ m -> k = Types.uri s) ->
             forall k s, (k, s) ∈ fold_left
               (fun m e => JSMap.set (fst e) (snd e) m) (map entry ws) m ->
             k = Types.uri s).
  { induction ws as [|w ws IH]; intros m Hm; [exact Hm|].
    cbn [map fold_left]. apply IH. clear IH. cbn [entry fst snd].
    induction m as [|[k1 s1] m IHm]; cbn [JSMap.set]; intros k' s' Hin.
    - apply list_elem_of_singleton in Hin. congruence.
    - destruct (decide (k1 = Types.uri w)) as [E|E].
      + apply elem_of_cons in Hin as [Hin|Hin]; [congruence|].
        apply Hm. right. exact Hin.
      + apply elem_of_cons in Hin as [Hin|Hin].
        * apply Hm. rewrite Hin. left.
        * apply IHm; [|exact Hin]. intros k2 s2 H2. apply Hm. right. exact H2. }
  apply H. intros k' s' Hin. apply elem_of_nil in Hin. destruct Hin.
Qed.

Lemma filter_map_entry (k : jstr) (ws : list Types.WebSource) :
  filter (fun e : jstr * Types.WebSource => fst e = k) (map entry ws) =
  map entry (filter (fun s => Types.uri s = k) ws).
Proof.
  induction ws as [|w ws IH]; [reflexivity|].
  cbn [map]. rewrite !filter_cons. cbn [entry fst].
  destruct (decide (Types.uri w = k)); [cbn [map]; f_equal|]; exact IH.
Qed.

Lemma last_map_entry (l : list Types.WebSource) :
  last (map entry l) = option_map entry (last l).
Proof.
  induction l as [|x l IH]; [reflexivity|].
  cbn [map]. rewrite !last_cons, IH. destruct (last l); reflexivity.
Qed.

Lemma uniqueSources_uris (ws : list Types.WebSource) :
  map Types.uri (uniqueSources ws) = JSMap.nub (map Types.uri ws).
Proof.
  unfold uniqueSources, JSMap.values.
  replace (map Types.uri ws) with (map fst (map entry ws))
    by (rewrite map_map; reflexivity).
  rewrite <- keys_of_entries.
  pose proof (entries_keyed ws) as Hk.
  induction (JSMap.of_entries (map entry ws)) as [|[k s] m IH]; [reflexivity|].
  cbn [map fst snd]. f_equal.
  - symmetry. apply Hk. left.
  - apply IH. intros k' s' H. apply Hk. right. exact H.
Qed.

Lemma uniqueSources_last (ws : list Types.WebSource) (s : Types.WebSource) :
  s ∈ uniqueSources ws ->
  last (filter (fun x => Types.uri x = Types.uri s) ws) = Some s.
Proof.
  unfold uniqueSources, JSMap.values. intros Hin.
  apply list_elem_of_In, in_map_iff in Hin as ([k s'] & E & Hin).
  cbn [snd] in E. subst s'. apply list_elem_of_In in Hin.
  pose proof (entries_keyed ws k s Hin) as ->.
  pose proof (get_In _ _ _ ltac:(rewrite keys_of_entries; apply NoDup_nub) Hin) as Hget.
  unfold JSMap.of_entries in Hget. rewrite get_fold in Hget. cbn [JSMap.get] in Hget.
  rewrite filter_map_entry, last_map_entry in Hget.
  destruct (last (filter (fun x => Types.uri x = Types.uri s) ws)) as [s0|];
    cbn in Hget; congruence.
Qed.

End WebSources.

(** C2 (as amended).  With web search enabled, a grounding chunk is kept
    exactly when it has a non-empty web URI and is mapped to its URI and
    title, the title falling back to the URI when absent or empty; the
    sources are deduplicated by URI: the result has one entry for each
    distinct URI, in the order in which the URIs are first seen, and the
    entry of a URI is the last source with that URI; the list is attached to
    the parsed object.  For the three chunks of the example the result is
    the single source with URI a and title A2. *)
Theorem web_sources (chunks : list GeminiService.GroundingChunk) :
  (forall c, GeminiService.webSourceOf c = None <->
             ~ exists w u, GeminiService.web c = Some w
                           /\ GeminiService.uri w = Some u /\ u <> [])
  /\ (forall c w u,
        GeminiService.web c = Some w -> GeminiService.uri w = Some u -> u <> [] ->
        exists s, GeminiService.webSourceOf c = Some s
          /\ Types.uri s = u
          /\ (GeminiService.title w = None \/ GeminiService.title w = Some [] ->
              Types.title s = u)
          /\ (forall t, GeminiService.title w = Some t -> t <> [] ->
              Types.title s = t))
  /\ map Types.uri (GeminiService.uniqueSources (GeminiService.webSources chunks))
     = JSMap.nub (map Types.uri (GeminiService.webSources chunks))
  /\ NoDup (map Types.uri
              (GeminiService.uniqueSources (GeminiService.webSources chunks)))
  /\ (forall s,
        s ∈ GeminiService.uniqueSources (GeminiService.webSources chunks) ->
        last (filter (fun x => Types.uri x = Types.uri s)
                (GeminiService.webSources chunks)) = Some s)
  /\ (forall host response raw members,
        GeminiService.text response = Some raw -> raw <> [] ->
        JSON.parse (GeminiService.jsonText raw) = Some (JSON.Object members) ->
        GeminiService.groundingChunksOf response = Some chunks ->
        GeminiService.readReply host true response =
        GeminiService.Ok
          {| GeminiService.parsed := JSON.Object members;
             GeminiService.result_webSources :=
               Some (GeminiService.uniqueSources
                       (GeminiService.webSources chunks)) |})
  /\ GeminiService.uniqueSources
       (GeminiService.webSources Samples.chunks_example)
     = [Samples.source_a_A2].
Proof.
  split.
  { intros c. unfold GeminiService.webSourceOf. split.
    - intros H (w & u & Hw & Hu & Hne). rewrite Hw, Hu in H.
      destruct u; [congruence|discriminate H].
    - intros H. destruct (GeminiService.web c) as [w|]; [|reflexivity].
      destruct (GeminiService.uri w) as [u|] eqn:Hu; [|reflexivity].
      destruct u as [|x u]; [reflexivity|].
      exfalso. apply H. exists w, (x :: u). repeat split; [exact Hu|discriminate]. }
  split.
  { intros c w u Hw Hu Hne. unfold GeminiService.webSourceOf. rewrite Hw, Hu.
    destruct u as [|x u]; [congruence|]. cbn [truthy].
    eexists. split; [reflexivity|]. cbn [Types.uri Types.title].
    split; [reflexivity|]. split.
    - intros [-> | ->]; reflexivity.
    - intros t -> Ht. destruct t; [congruence|reflexivity]. }
  split; [apply uniqueSources_uris|].
  split; [rewrite uniqueSources_uris; apply NoDup_nub|].
  split; [apply uniqueSources_last|].
  split; [|vm_compute; reflexivity].
  intros host response raw members Htext Hne Hparse Hchunks.
  unfold GeminiService.readReply. rewrite Htext.
  destruct raw as [|c raw']; [congruence|].
  cbn [truthy GeminiService.bindR]. unfold GeminiService.parseReply.
  rewrite Hparse. cbn [GeminiService.bindR]. rewrite Hchunks. reflexivity.
Qed.

(** The chunks of the example, returned with the fenced reply. *)
Lemma web_sources_witness :
  GeminiService.readReply
    (Samples.host_of (Some (lit "key"))
       (Samples.grounded Samples.reply_fenced Samples.chunks_example))
    true (Samples.grounded Samples.reply_fenced Samples.chunks_example)
  = GeminiService.Ok
      {| GeminiService.parsed := Samples.reply_value;
         GeminiService.result_webSources := Some [Samples.source_a_A2] |}
  /\ last (filter (fun x => Types.uri x = lit "a")
             (GeminiService.webSources Samples.chunks_example))
     = Some Samples.source_a_A2.
Proof.
  destruct (web_sources Samples.chunks_example)
    as (_ & Hmap & _ & _ & Hlast & Hreply & Hex).
  split.
  - rewrite <- Hex. apply (Hreply _ _ Samples.reply_fenced).
    + reflexivity.
    + discriminate.
    + vm_compute. reflexivity.
    + reflexivity.
  - apply (Hlast Samples.source_a_A2). rewrite Hex. left.
Defined.

(** C2 as stated fails on its own example: the entry kept for URI a
    carries the title of the second chunk, not of the first. *)
Lemma web_sources_counterexample :
  GeminiService.uniqueSources (GeminiService.webSources Samples.chunks_example)
  <> [Samples.source_a_A].
Proof. vm_compute. discriminate. Qed.

(** * The result view *)

(** C8.  For every risk score the colour tier is red exactly from 80 up,
    orange exactly from 50 to 79, yellow exactly from 20 to 49 and green
    exactly below 20, for the text colour and for the background alike; 19 is
    in the lowest tier, and 20, 50 and 80 are each one tier above 19, 49 and
    79. *)
Theorem risk_color_tiers (score : Z) :
  (AnalysisView.getRiskColor score = lit "text-red-600" <-> (80 <= score)%Z)
  /\ (AnalysisView.getRiskColor score = lit "text-orange-600"
      <-> (50 <= score < 80)%Z)
  /\ (AnalysisView.getRiskColor score = lit "text-yellow-600"
      <-> (20 <= score < 50)%Z)
  /\ (AnalysisView.getRiskColor score = lit "text-green-600" <-> (score < 20)%Z)
  /\ (AnalysisView.getRiskBg score = lit "bg-red-50 border-red-200"
      <-> (80 <= score)%Z)
  /\ (AnalysisView.getRiskBg score = lit "bg-orange-50 border-orange-200"
      <-> (50 <= score < 80)%Z)
  /\ (AnalysisView.getRiskBg score = lit "bg-yellow-50 border-yellow-200"
      <-> (20 <= score < 50)%Z)
  /\ (AnalysisView.getRiskBg score = lit "bg-green-50 border-green-200"
      <-> (score < 20)%Z)
  /\ map AnalysisView.getRiskColor [19; 20; 49; 50; 79; 80]%Z
     = [lit "text-green-600"; lit "text-yellow-600"; lit "text-yellow-600";
        lit "text-orange-600"; lit "text-orange-600"; lit "text-red-600"].
Proof.
  unfold AnalysisView.getRiskColor, AnalysisView.getRiskBg.
  destruct (Z.ltb_spec score 20); [|destruct (Z.ltb_spec score 50);
    [|destruct (Z.ltb_spec score 80)]];
    repeat split; intros; try lia; try reflexivity;
    match goal with
    | E : lit _ = lit _ |- _ => vm_compute in E; discriminate E
    end.
Qed.

(** * The state controller *)

Section Controller.

Import GeminiService App.

Lemma truthy_true (s : jstr) : truthy s = true <-> s <> [].
Proof. destruct s; cbn; split; congruence. Qed.

Lemma hasReferences_spec (st : AppState) :
  hasReferences st = true <->
  exists r, In r (references st) /\ trim (Types.text r) <> [].
Proof.
  unfold hasReferences. rewrite andb_true_iff, existsb_exists. split.
  - intros [_ (r & Hin & Ht)]. exists r. split; [exact Hin|]. apply truthy_true, Ht.
  - intros (r & Hin & Ht). split.
    + destruct (references st); [destruct Hin|reflexivity].
    + exists r. split; [exact Hin|]. apply truthy_true, Ht.
Qed.

Lemma preconditions_dec (st : AppState) :
  preconditions st <->
  truthy (trim (documentText st)) = true
  /\ (hasReferences st || useWebSearch st) = true.
Proof.
  unfold preconditions. rewrite truthy_true, orb_true_iff, hasReferences_spec.
  reflexivity.
Qed.

(** The events of the client. *)
Lemma analyzePlagiarism_no_key (host : Host) (documentText : jstr)
    (references : list Types.ReferenceItem) (documentType : jstr) (web : bool) :
  API_KEY host = None \/ API_KEY host = Some [] ->
  analyzePlagiarism host documentText references documentType web =
  ([Analyze documentText references documentType web],
   Throw (Error (lit "API Key is missing"))).
Proof.
  intros Hkey. unfold analyzePlagiarism, getClient.
  destruct Hkey as [-> | ->]; reflexivity.
Qed.

Lemma analyzePlagiarism_key (host : Host) (k : jstr) (documentText : jstr)
    (references : list Types.ReferenceItem) (documentType : jstr) (web : bool) :
  API_KEY host = Some k -> k <> [] ->
  let request :=
    {| model := lit "gemini-3-pro-preview";
       contents := buildPrompt documentText references documentType web;
       config := buildConfig web |} in
  analyzePlagiarism host documentText references documentType web =
  ([Analyze documentText references documentType web; ModelCall request],
   bindR (generateContent host request) (readReply host web)).
Proof.
  intros Hkey Hne. unfold analyzePlagiarism, getClient. rewrite Hkey.
  destruct k as [|c k]; [congruence|]. cbn [truthy].
  unfold models_generateContent. cbn.
  destruct (generateContent host _) as [response|e]; reflexivity.
Qed.

Lemma handleAnalyze_rejects (host : Host) (st : AppState) :
  ~ preconditions st ->
  exists msg, msg <> [] /\ handleAnalyze host st = ([], setError (Some msg) st).
Proof.
  rewrite preconditions_dec. intros Hno. unfold handleAnalyze.
  destruct (truthy (trim (documentText st))) eqn:Hdoc; cbn [negb].
  - destruct (hasReferences st) eqn:Href; [exfalso; apply Hno; split; reflexivity|].
    destruct (useWebSearch st) eqn:Hweb; [exfalso; apply Hno; split; reflexivity|].
    cbn [negb andb]. eexists. split; [|reflexivity]. discriminate.
  - eexists. split; [|reflexivity]. discriminate.
Qed.

Lemma handleAnalyze_invokes (host : Host) (st : AppState) :
  preconditions st ->
  fst (handleAnalyze host st) =
  fst (analyzePlagiarism host (documentText st) (references st)
         (documentType st) (useWebSearch st))
  /\ snd (handleAnalyze host st) =
     setIsAnalyzing false
       (match snd (analyzePlagiarism host (documentText st) (references st)
                     (documentType st) (useWebSearch st)) with
        | Ok data =>
            setResult (resultOf data)
              (setResult None (setError None (setIsAnalyzing true st)))
        | Throw err =>
            setError (Some (errorMessage err))
              (setResult None (setError None (setIsAnalyzing true st)))
        end).
Proof.
  rewrite preconditions_dec. intros [Hdoc Hsrc]. unfold handleAnalyze.
  rewrite Hdoc. cbn [negb].
  replace (negb (hasReferences st) && negb (useWebSearch st)) with false
    by (rewrite <- negb_orb, Hsrc; reflexivity).
  destruct (analyzePlagiarism host (documentText st) (references st)
              (documentType st) (useWebSearch st)) as [tr outcome].
  split; reflexivity.
Qed.

Lemma analyzePlagiarism_invoked (host : Host) (documentText : jstr)
    (references : list Types.ReferenceItem) (documentType : jstr) (web : bool) :
  clientInvocations
    (fst (analyzePlagiarism host documentText references documentType web))
  = [Analyze documentText references documentType web].
Proof.
  destruct (API_KEY host) as [k|] eqn:Hk.
  - destruct k as [|c k].
    + rewrite analyzePlagiarism_no_key by (right; exact Hk). reflexivity.
    + rewrite (analyzePlagiarism_key host (c :: k)) by (exact Hk || discriminate).
      reflexivity.
  - rewrite analyzePlagiarism_no_key by (left; exact Hk). reflexivity.
Qed.

End Controller.

(** C3 (as amended).  For every state of the application the analyze action
    is rejected by validation exactly when its preconditions are unmet: the
    analysis client is not invoked, no call is made, and the error field is
    set to the validation message while every other field stays.  That is
    so when the document text is blank, whatever the references and the web
    search flag, and when no reference has a non-blank text and web search
    is off.  Otherwise, also with no reference at all and web search on, the
    analysis client is invoked, once, with the document, the references, the
    document type and the flag; with a credential configured that run makes
    exactly one model call, and without one it makes none and sets the
    client's error although the preconditions are met. *)
Theorem analyze_preconditions (host : GeminiService.Host) (st : App.AppState) :
  (trim (App.documentText st) = [] ->
     App.handleAnalyze host st =
     ([], App.setError (Some (lit "Please enter the document text.")) st)
     /\ App.error (snd (App.handleAnalyze host st))
        = Some (lit "Please enter the document text."))
  /\ (trim (App.documentText st) <> [] ->
      (forall r, In r (App.references st) -> trim (Types.text r) = []) ->
      App.useWebSearch st = false ->
      App.handleAnalyze host st =
      ([], App.setError
             (Some (lit "Please add at least one reference text OR enable Web Search."))
             st)
      /\ App.error (snd (App.handleAnalyze host st))
         = Some (lit "Please add at least one reference text OR enable Web Search."))
  /\ (~ App.preconditions st <->
      GeminiService.clientInvocations (fst (App.handleAnalyze host st)) = [])
  /\ (~ App.preconditions st ->
      fst (App.handleAnalyze host st) = []
      /\ GeminiService.modelCalls (fst (App.handleAnalyze host st)) = []
      /\ (exists msg, msg <> []
            /\ App.error (snd (App.handleAnalyze host st)) = Some msg
            /\ snd (App.handleAnalyze host st) = App.setError (Some msg) st)
      /\ App.documentText (snd (App.handleAnalyze host st)) = App.documentText st
      /\ App.references (snd (App.handleAnalyze host st)) = App.references st
      /\ App.result (snd (App.handleAnalyze host st)) = App.result st
      /\ App.isAnalyzing (snd (App.handleAnalyze host st)) = App.isAnalyzing st)
  /\ (App.preconditions st ->
      GeminiService.clientInvocations (fst (App.handleAnalyze host st)) =
      [GeminiService.Analyze (App.documentText st) (App.references st)
         (App.documentType st) (App.useWebSearch st)])
  /\ (trim (App.documentText st) <> [] -> App.references st = [] ->
      App.useWebSearch st = true ->
      GeminiService.clientInvocations (fst (App.handleAnalyze host st)) =
      [GeminiService.Analyze (App.documentText st) [] (App.documentType st) true])
  /\ (App.preconditions st ->
      forall k, GeminiService.API_KEY host = Some k -> k <> [] ->
      length (GeminiService.modelCalls (fst (App.handleAnalyze host st))) = 1)
  /\ (App.preconditions st ->
      GeminiService.API_KEY host = None \/ GeminiService.API_KEY host = Some [] ->
      GeminiService.modelCalls (fst (App.handleAnalyze host st)) = []
      /\ App.error (snd (App.handleAnalyze host st))
         = Some (lit "API Key is missing")).
Proof.
  assert (Hinv : App.preconditions st ->
            GeminiService.clientInvocations (fst (App.handleAnalyze host st)) =
            [GeminiService.Analyze (App.documentText st) (App.references st)
               (App.documentType st) (App.useWebSearch st)]).
  { intros Hpre. destruct (handleAnalyze_invokes host st Hpre) as [-> _].
    apply analyzePlagiarism_invoked. }
  split.
  { intros Hdoc. unfold App.handleAnalyze. rewrite Hdoc. split; reflexivity. }
  split.
  { intros Hdoc Hrefs Hweb. unfold App.handleAnalyze.
    apply truthy_true in Hdoc. rewrite Hdoc, Hweb. cbn [negb].
    destruct (App.hasReferences st) eqn:Href; [|split; reflexivity].
    apply hasReferences_spec in Href as (r & Hin & Ht).
    exfalso. apply Ht, Hrefs, Hin. }
  split.
  { split.
    - intros Hno. destruct (handleAnalyze_rejects host st Hno) as (msg & _ & E).
      rewrite E. reflexivity.
    - intros Hnone Hpre. rewrite (Hinv Hpre) in Hnone. discriminate Hnone. }
  split.
  { intros Hno. destruct (handleAnalyze_rejects host st Hno) as (msg & Hmsg & E).
    rewrite E. cbn [fst snd]. split; [reflexivity|]. split; [reflexivity|].
    split; [exists msg; repeat split; exact Hmsg|]. repeat split. }
  split; [exact Hinv|].
  split.
  { intros Hdoc Hrefs Hweb.
    assert (Hpre : App.preconditions st) by (split; [exact Hdoc|right; exact Hweb]).
    rewrite (Hinv Hpre), Hrefs, Hweb. reflexivity. }
  split.
  { intros Hpre k Hk Hne.
    destruct (handleAnalyze_invokes host st Hpre) as [-> _].
    rewrite (analyzePlagiarism_key host k) by assumption. reflexivity. }
  intros Hpre Hkey. destruct (handleAnalyze_invokes host st Hpre) as [-> ->].
  rewrite analyzePlagiarism_no_key by exact Hkey. cbn [fst snd].
  split; reflexivity.
Qed.

(** Two runs: no reference with web search on, and a blank document. *)
Lemma analyze_preconditions_witness :
  GeminiService.clientInvocations
    (fst (App.handleAnalyze
            (Samples.host_of (Some (lit "key"))
               (Samples.grounded Samples.reply_fenced []))
            Samples.web_only))
  = [GeminiService.Analyze (lit "Some essay.") [] (lit "Research Paper") true]
  /\ fst (App.handleAnalyze
            (Samples.host_of (Some (lit "key"))
               (Samples.grounded Samples.reply_fenced []))
            Samples.blank_document) = []
  /\ App.error
       (snd (App.handleAnalyze
               (Samples.host_of (Some (lit "key"))
                  (Samples.grounded Samples.reply_fenced []))
               Samples.blank_document))
     = Some (lit "Please enter the document text.").
Proof.
  split.
  - destruct (analyze_preconditions
                (Samples.host_of (Some (lit "key"))
                   (Samples.grounded Samples.reply_fenced []))
                Samples.web_only) as (_ & _ & _ & _ & _ & H & _).
    apply H; [vm_compute; discriminate|reflexivity|reflexivity].
  - destruct (analyze_preconditions
                (Samples.host_of (Some (lit "key"))
                   (Samples.grounded Samples.reply_fenced []))
                Samples.blank_document) as (H & _).
    destruct H as [H1 H2]; [vm_compute; reflexivity|].
    split; [rewrite H1; reflexivity|exact H2].
Defined.

(** C3 as stated fails: with the preconditions met and no credential the
    action also makes no model call and surfaces an error message. *)
Lemma analyze_preconditions_counterexample :
  App.preconditions Samples.web_only
  /\ GeminiService.modelCalls
       (fst (App.handleAnalyze
               (Samples.host_of None (Samples.grounded Samples.reply_fenced []))
               Samples.web_only)) = []
  /\ App.error
       (snd (App.handleAnalyze
               (Samples.host_of None (Samples.grounded Samples.reply_fenced []))
               Samples.web_only))
     = Some (lit "API Key is missing").
Proof.
  split; [split; [vm_compute; discriminate|right; reflexivity]|].
  split; vm_compute; reflexivity.
Qed.

(** C7.  Whatever the inputs, when no credential is configured (absent or
    empty) analyzePlagiarism throws the error API Key is missing and the
    model is never called.  The failure belongs to the request: the
    application starts without an error whatever the configuration, and the
    analyze action of a state that meets the preconditions ends with that
    message as its error, still without a model call. *)
Theorem missing_credential (host : GeminiService.Host) (documentText : jstr)
    (references : list Types.ReferenceItem) (documentType : jstr) (web : bool) :
  GeminiService.API_KEY host = None \/ GeminiService.API_KEY host = Some [] ->
  snd (GeminiService.analyzePlagiarism host documentText references documentType web)
  = GeminiService.Throw (GeminiService.Error (lit "API Key is missing"))
  /\ GeminiService.modelCalls
       (fst (GeminiService.analyzePlagiarism host documentText references
               documentType web)) = []
  /\ App.error App.initial = None
  /\ (forall st, App.preconditions st ->
        GeminiService.modelCalls (fst (App.handleAnalyze host st)) = []
        /\ App.error (snd (App.handleAnalyze host st))
           = Some (lit "API Key is missing")
        /\ App.result (snd (App.handleAnalyze host st)) = None).
Proof.
  intros Hkey.
  rewrite analyzePlagiarism_no_key by exact Hkey. cbn [fst snd].
  split; [reflexivity|]. split; [reflexivity|]. split; [reflexivity|].
  intros st Hpre. destruct (handleAnalyze_invokes host st Hpre) as [-> ->].
  rewrite analyzePlagiarism_no_key by exact Hkey. cbn [fst snd].
  split; [reflexivity|]. split; reflexivity.
Qed.

(** A host without a credential, asked to analyse with web search on. *)
Lemma missing_credential_witness :
  GeminiService.analyzePlagiarism
    (Samples.host_of None (Samples.grounded Samples.reply_fenced []))
    (lit "Some essay.") [] (lit "Research Paper") true
  = ([GeminiService.Analyze (lit "Some essay.") [] (lit "Research Paper") true],
     GeminiService.Throw (GeminiService.Error (lit "API Key is missing")))
  /\ App.error
       (snd (App.handleAnalyze
               (Samples.host_of None (Samples.grounded Samples.reply_fenced []))
               Samples.web_only))
     = Some (lit "API Key is missing").
Proof.
  destruct (missing_credential
              (Samples.host_of None (Samples.grounded Samples.reply_fenced []))
              (lit "Some essay.") [] (lit "Research Paper") true)
    as (H1 & H2 & _ & H3).
  - left. reflexivity.
  - split; [reflexivity|].
    apply (H3 Samples.web_only). split; [vm_compute; discriminate|].
    right. reflexivity.
Defined.

(** * Decimal rendering *)

Lemma to_digits_fuel (f1 f2 n : nat) (acc : jstr) :
  n < f1 -> n < f2 -> to_digits f1 n acc = to_digits f2 n acc.
Proof.
  revert f2 n acc. induction f1 as [|f1 IH]; intros f2 n acc H1 H2; [lia|].
  destruct f2 as [|f2]; [lia|]. cbn [to_digits].
  destruct (Nat.eqb_spec (n / 10) 0) as [E|E]; [reflexivity|].
  assert (0 < n) by (destruct n; [cbn in E; congruence|lia]).
  assert (n / 10 < n) by (apply Nat.div_lt; lia).
  apply IH; lia.
Qed.

Lemma to_digits_acc (f n : nat) (acc : jstr) :
  to_digits f n acc = to_digits f n [] ++ acc.
Proof.
  revert n acc. induction f as [|f IH]; intros n acc; [reflexivity|].
  cbn [to_digits]. destruct (n / 10 =? 0); [reflexivity|].
  rewrite (IH _ (_ :: acc)), (IH _ [_]), <- app_assoc. reflexivity.
Qed.

Lemma toString_step (n : nat) :
  toString n =
  if n <? 10 then [digit n] else toString (n / 10) ++ [digit (n mod 10)].
Proof.
  unfold toString at 1. cbn [to_digits].
  destruct (Nat.ltb_spec n 10) as [H|H].
  - rewrite Nat.div_small, Nat.mod_small by exact H. reflexivity.
  - destruct (Nat.eqb_spec (n / 10) 0) as [E|E].
    + apply Nat.div_small_iff in E; lia.
    + rewrite to_digits_acc. f_equal. unfold toString.
      assert (n / 10 < n) by (apply Nat.div_lt; lia).
      apply to_digits_fuel; lia.
Qed.

Lemma digit_code (d : nat) : d < 10 -> nat_of_ascii (digit d) = 48 + d.
Proof. intros H. unfold digit. apply nat_ascii_embedding. lia. Qed.

Lemma decimal_value_snoc (s : jstr) (c : ascii) :
  decimal_value (s ++ [c]) = 10 * decimal_value s + (nat_of_ascii c - 48).
Proof. unfold decimal_value. rewrite fold_left_app. reflexivity. Qed.

Lemma toString_value (n : nat) : decimal_value (toString n) = n.
Proof.
  induction n as [n IH] using lt_wf_ind. rewrite toString_step.
  destruct (Nat.ltb_spec n 10) as [H|H].
  - unfold decimal_value. cbn [fold_left]. rewrite digit_code by exact H. lia.
  - rewrite decimal_value_snoc, IH by (apply Nat.div_lt; lia).
    rewrite digit_code by (apply Nat.mod_upper_bound; lia).
    pose proof (Nat.div_mod_eq n 10). lia.
Qed.

Lemma toString_digits (n : nat) : forallb is_decimal (toString n) = true.
Proof.
  induction n as [n IH] using lt_wf_ind. rewrite toString_step.
  assert (Hd : forall d, d < 10 -> is_decimal (digit d) = true).
  { intros d Hd. unfold is_decimal. rewrite digit_code by exact Hd.
    apply andb_true_iff. split; apply Nat.leb_le; lia. }
  destruct (Nat.ltb_spec n 10) as [H|H].
  - cbn [forallb]. rewrite Hd by exact H. reflexivity.
  - rewrite forallb_app, IH by (apply Nat.div_lt; lia). cbn [forallb].
    rewrite Hd by (apply Nat.mod_upper_bound; lia). reflexivity.
Qed.

Lemma toString_length_small (n : nat) :
  (n < 10 -> length (toString n) = 1)
  /\ (10 <= n < 100 -> length (toString n) = 2)
  /\ (100 <= n < 1000 -> length (toString n) = 3)
  /\ (1000 <= n -> 4 <= length (toString n)).
Proof.
  assert (H1 : forall k, k < 10 -> length (toString k) = 1).
  { intros k Hk. rewrite toString_step.
    destruct (Nat.ltb_spec k 10); [reflexivity|lia]. }
  assert (Hs : forall k, 10 <= k ->
                 length (toString k) = S (length (toString (k / 10)))).
  { intros k Hk. rewrite toString_step.
    destruct (Nat.ltb_spec k 10); [lia|]. rewrite length_app. cbn [length]. lia. }
  assert (H0 : forall k, 1 <= length (toString k)).
  { intros k. rewrite toString_step. destruct (k <? 10); [cbn; lia|].
    rewrite length_app. cbn [length]. lia. }
  assert (H2 : forall k, 10 <= k < 100 -> length (toString k) = 2).
  { intros k Hk. rewrite Hs, H1; [reflexivity| |lia].
    apply Nat.Div0.div_lt_upper_bound. lia. }
  assert (H3 : forall k, 100 <= k < 1000 -> length (toString k) = 3).
  { intros k Hk. rewrite Hs, H2; [reflexivity| |lia]. split.
    - apply Nat.div_le_lower_bound; lia.
    - apply Nat.Div0.div_lt_upper_bound. lia. }
  split; [apply H1|]. split; [apply H2|]. split; [apply H3|].
  intros Hn. rewrite Hs by lia.
  assert (100 <= n / 10) by (apply Nat.div_le_lower_bound; lia).
  rewrite Hs by lia.
  assert (10 <= n / 10 / 10) by (apply Nat.div_le_lower_bound; lia).
  rewrite Hs by lia. pose proof (H0 (n / 10 / 10 / 10)). lia.
Qed.

Lemma toString_head (n : nat) :
  0 < n -> exists c rest, toString n = c :: rest /\ c <> "0"%char.
Proof.
  induction n as [n IH] using lt_wf_ind. intros Hpos. rewrite toString_step.
  destruct (Nat.ltb_spec n 10) as [H|H].
  - exists (digit n), []. split; [reflexivity|]. intros E.
    apply (f_equal nat_of_ascii) in E. rewrite digit_code in E by exact H.
    change (nat_of_ascii "0") with 48 in E. lia.
  - destruct (IH (n / 10)) as (c & rest & E & Hc).
    + apply Nat.div_lt; lia.
    + apply Nat.div_str_pos. lia.
    + rewrite E. exists c, (rest ++ [digit (n mod 10)]). split; [reflexivity|exact Hc].
Qed.

Lemma decimal_value_zeros (k : nat) (s : jstr) :
  decimal_value (repeat "0"%char k ++ s) = decimal_value s.
Proof.
  unfold decimal_value. rewrite fold_left_app. f_equal.
  induction k as [|k IH]; [reflexivity|]. cbn [repeat fold_left].
  change (10 * 0 + (nat_of_ascii "0" - 48)) with 0. exact IH.
Qed.

(** * The reference store *)

Section Store.

Import ReferenceList.

Lemma alloc_fresh (h : gmap loc Types.ReferenceItem) : h !! alloc h = None.
Proof. apply not_elem_of_dom. unfold alloc. apply is_fresh. Qed.

Lemma omap_agree {A B} (f g : A -> option B) (l : list A) :
  (forall x, x ∈ l -> f x = g x) -> omap f l = omap g l.
Proof.
  induction l as [|x l IH]; intros H; [reflexivity|].
  change (omap f (x :: l))
    with (match f x with Some y => y :: omap f l | None => omap f l end).
  change (omap g (x :: l))
    with (match g x with Some y => y :: omap g l | None => omap g l end).
  rewrite (H x) by left.
  rewrite IH by (intros y Hy; apply H; right; exact Hy). reflexivity.
Qed.

Lemma heap_extend (st : store) (r : Types.ReferenceItem) (l0 : loc)
    (r0 : Types.ReferenceItem) :
  heap st !! l0 = Some r0 -> <[alloc (heap st) := r]> (heap st) !! l0 = Some r0.
Proof.
  intros H. rewrite lookup_insert_ne; [exact H|].
  intros E. subst l0. rewrite alloc_fresh in H. discriminate.
Qed.

Lemma empty_wf : wf empty.
Proof. intros l Hl. apply elem_of_nil in Hl. destruct Hl. Qed.

Lemma addReference_wf (st : store) : wf st -> wf (addReference st).
Proof.
  intros Hwf l Hl. unfold addReference in *. cbn [heap references] in *.
  apply elem_of_app in Hl as [Hl|Hl].
  - destruct (Hwf l Hl) as [r Hr]. exists r. apply heap_extend, Hr.
  - apply list_elem_of_singleton in Hl. subst l. rewrite lookup_insert_eq. eauto.
Qed.

Lemma filter_index_elem {A} (keep : nat -> bool) (i : nat) (l : list A) (x : A) :
  x ∈ filter_index keep i l -> x ∈ l.
Proof.
  revert i. induction l as [|y l IH]; intros i; cbn [filter_index]; [tauto|].
  destruct (keep i); rewrite ?elem_of_cons; intros H.
  - destruct H as [H|H]; [left; exact H|right; eapply IH, H].
  - right. eapply IH, H.
Qed.

Lemma removeReference_wf (index : nat) (st : store) :
  wf st -> wf (removeReference index st).
Proof.
  intros Hwf l Hl. unfold removeReference in *. cbn [heap references] in *.
  apply Hwf. eapply filter_index_elem, Hl.
Qed.

Lemma updateReference_wf (index : nat) (f : field) (value : field_type f)
    (st st' : store) :
  wf st -> updateReference index f value st = Some st' -> wf st'.
Proof.
  intros Hwf. unfold updateReference.
  destruct (references st !! index) as [l|] eqn:Hl; [|discriminate].
  destruct (heap st !! l) as [r|] eqn:Hr; [|discriminate].
  intros E. injection E as <-. intros l0 Hl0. cbn [heap references] in *.
  apply list_elem_of_lookup in Hl0 as [j Hj].
  destruct (decide (index = j)) as [->|Hne].
  - rewrite list_lookup_insert_eq in Hj by (eapply lookup_lt_Some, Hl).
    injection Hj as <-. rewrite lookup_insert_eq. eauto.
  - rewrite list_lookup_insert_ne in Hj by exact Hne.
    destruct (Hwf l0) as [r0 Hr0]; [apply list_elem_of_lookup; eauto|].
    exists r0. apply heap_extend, Hr0.
Qed.

Lemma newRef_digits (n : nat) :
  exists digits,
    Types.id (newRef n) = lit "REF-" ++ digits
    /\ forallb is_decimal digits = true
    /\ decimal_value digits = n + 1
    /\ 3 <= length digits
    /\ (n + 1 < 1000 -> length digits = 3)
    /\ (1000 <= n + 1 -> exists c rest, digits = c :: rest /\ c <> "0"%char).
Proof.
  exists (padStart 3 "0"%char (toString (n + 1))). unfold padStart.
  split; [reflexivity|].
  pose proof (toString_length_small (n + 1)) as (L1 & L2 & L3 & L4).
  split.
  { rewrite forallb_app, toString_digits, andb_true_r.
    induction (3 - length (toString (n + 1))) as [|k IH]; [reflexivity|exact IH]. }
  split; [rewrite decimal_value_zeros; apply toString_value|].
  rewrite length_app, repeat_length.
  split; [lia|]. split.
  - intros Hn.
    destruct (Nat.lt_ge_cases (n + 1) 10) as [H|H]; [rewrite L1; lia|].
    destruct (Nat.lt_ge_cases (n + 1) 100) as [H'|H']; [rewrite L2; lia|].
    rewrite L3; lia.
  - intros Hn. specialize (L4 Hn).
    replace (3 - length (toString (n + 1))) with 0 by lia. cbn [repeat app].
    apply toString_head. lia.
Qed.

End Store.

(** C4.  For every reference list, add() appends one newly allocated record
    at the end.  Its id is REF- followed by decimal digits that denote the
    current length plus one, padded with zeros to three digits (exactly three
    below 1000, and the plain number without a leading zero from 1000 on);
    its source type is paper, its text is empty and it starts expanded.  The
    records already there stay the same objects with the same contents. *)
Theorem add_reference (st : ReferenceList.store) :
  ReferenceList.heap st !! ReferenceList.alloc (ReferenceList.heap st) = None
  /\ ReferenceList.references (ReferenceList.addReference st)
     = ReferenceList.references st ++ [ReferenceList.alloc (ReferenceList.heap st)]
  /\ (exists digits,
        ReferenceList.heap (ReferenceList.addReference st)
          !! ReferenceList.alloc (ReferenceList.heap st)
        = Some {| Types.id := lit "REF-" ++ digits;
                  Types.sourceType := Types.PAPER;
                  Types.text := [];
                  Types.isExpanded := Some true |}
        /\ forallb is_decimal digits = true
        /\ decimal_value digits = length (ReferenceList.references st) + 1
        /\ 3 <= length digits
        /\ (length (ReferenceList.references st) + 1 < 1000 -> length digits = 3)
        /\ (1000 <= length (ReferenceList.references st) + 1 ->
            exists c rest, digits = c :: rest /\ c <> "0"%char))
  /\ (forall l r,
        ReferenceList.heap st !! l = Some r ->
        ReferenceList.heap (ReferenceList.addReference st) !! l = Some r)
  /\ (ReferenceList.wf st ->
      ReferenceList.wf (ReferenceList.addReference st)
      /\ ReferenceList.contents (ReferenceList.addReference st)
         = ReferenceList.contents st
           ++ [ReferenceList.newRef (length (ReferenceList.references st))]).
Proof.
  split; [apply alloc_fresh|]. split; [reflexivity|]. split.
  { destruct (newRef_digits (length (ReferenceList.references st)))
      as (digits & Hid & Hrest).
    exists digits. split; [|exact Hrest].
    unfold ReferenceList.addReference. cbn [ReferenceList.heap].
    rewrite lookup_insert_eq. f_equal.
    unfold ReferenceList.newRef in *. cbn [Types.id] in Hid. rewrite Hid.
    reflexivity. }
  split; [intros l r H; apply heap_extend, H|].
  intros Hwf. split; [apply addReference_wf, Hwf|].
  - unfold ReferenceList.contents, ReferenceList.addReference.
    cbn [ReferenceList.heap ReferenceList.references].
    rewrite omap_app. simpl. rewrite lookup_insert_eq. f_equal.
    apply omap_agree. intros l Hl. destruct (Hwf l Hl) as [r Hr].
    rewrite Hr. apply heap_extend, Hr.
Qed.

(** Adding to the store that holds one reference. *)
Lemma add_reference_witness :
  ReferenceList.contents
    (ReferenceList.addReference (ReferenceList.addReference ReferenceList.empty))
  = [ReferenceList.newRef 0; ReferenceList.newRef 1]
  /\ Types.id (ReferenceList.newRef 1) = lit "REF-002".
Proof.
  destruct (add_reference (ReferenceList.addReference ReferenceList.empty))
    as (_ & _ & _ & _ & H).
  destruct H as [_ H].
  - apply addReference_wf, empty_wf.
  - split; [rewrite H; reflexivity|reflexivity].
Defined.

(** C5.  For every reference list, valid index, field and value, update
    gives a list of the same length whose slot at the index holds a newly
    allocated record that has the given field replaced and the other fields
    as before; every other slot holds the very same object as before, and no
    object that existed is changed. *)
Theorem update_reference (st : ReferenceList.store) (index : nat)
    (f : ReferenceList.field) (value : ReferenceList.field_type f) :
  ReferenceList.wf st ->
  index < length (ReferenceList.references st) ->
  exists st' l r l',
    ReferenceList.updateReference index f value st = Some st'
    /\ ReferenceList.references st !! index = Some l
    /\ ReferenceList.heap st !! l = Some r
    /\ length (ReferenceList.references st')
       = length (ReferenceList.references st)
    /\ ReferenceList.references st' !! index = Some l'
    /\ ReferenceList.heap st !! l' = None
    /\ ReferenceList.heap st' !! l' = Some (ReferenceList.set f value r)
    /\ ReferenceList.get f (ReferenceList.set f value r) = value
    /\ (forall g, g <> f ->
          ReferenceList.get g (ReferenceList.set f value r)
          = ReferenceList.get g r)
    /\ (forall j, j <> index ->
          ReferenceList.references st' !! j = ReferenceList.references st !! j)
    /\ (forall l0 r0,
          ReferenceList.heap st !! l0 = Some r0 ->
          ReferenceList.heap st' !! l0 = Some r0).
Proof.
  intros Hwf Hidx.
  destruct (lookup_lt_is_Some_2 _ _ Hidx) as [l Hl].
  destruct (Hwf l) as [r Hr]; [apply list_elem_of_lookup; eauto|].
  eexists _, l, r, (ReferenceList.alloc (ReferenceList.heap st)).
  split; [unfold ReferenceList.updateReference; rewrite Hl, Hr; reflexivity|].
  cbn [ReferenceList.heap ReferenceList.references].
  split; [exact Hl|]. split; [exact Hr|].
  split; [apply length_insert|].
  split; [apply list_lookup_insert_eq, Hidx|].
  split; [apply alloc_fresh|].
  split; [apply lookup_insert_eq|].
  split; [destruct f; reflexivity|].
  split; [intros g Hg; destruct f, g; try congruence; reflexivity|].
  split; [intros j Hj; apply list_lookup_insert_ne; congruence|].
  intros l0 r0 H0. apply heap_extend, H0.
Qed.

(** Editing the text of the first of two references. *)
Lemma update_reference_witness :
  exists st',
    ReferenceList.updateReference 0 ReferenceList.F_text (lit "quoted")
      (ReferenceList.addReference (ReferenceList.addReference ReferenceList.empty))
    = Some st'
    /\ ReferenceList.references st' !! 1
       = ReferenceList.references
           (ReferenceList.addReference
              (ReferenceList.addReference ReferenceList.empty)) !! 1.
Proof.
  destruct (update_reference
              (ReferenceList.addReference
                 (ReferenceList.addReference ReferenceList.empty))
              0 ReferenceList.F_text (lit "quoted"))
    as (st' & l & r & l' & H1 & _ & _ & _ & _ & _ & _ & _ & _ & H2 & _).
  - apply addReference_wf, addReference_wf, empty_wf.
  - cbn. lia.
  - exists st'. split; [exact H1|]. apply H2. discriminate.
Defined.

(** C10.  The generated ids are not unique: after add, add, remove at index
    0, the next add generates the id REF-002, which the record still in the
    store already bears, so that the store then holds two distinct records
    with the same id. *)
Theorem duplicate_ids :
  exists before after kept added,
    before = ReferenceList.removeReference 0
               (ReferenceList.addReference
                  (ReferenceList.addReference ReferenceList.empty))
    /\ after = ReferenceList.addReference before
    /\ ReferenceList.contents before = [kept]
    /\ ReferenceList.contents after = [kept; added]
    /\ Types.id added = Types.id kept
    /\ Types.id added = lit "REF-002"
    /\ exists l1 l2, ReferenceList.references after = [l1; l2] /\ l1 <> l2.
Proof.
  eexists _, _, _, _. split; [reflexivity|]. split; [reflexivity|].
  split; [vm_compute; reflexivity|]. split; [vm_compute; reflexivity|].
  split; [reflexivity|]. split; [reflexivity|].
  eexists _, _. split; [vm_compute; reflexivity|]. discriminate.
Qed.

(** * The prompt builder *)

Section Prompt.

Import GeminiService.

Lemma occurrences_sep (pat a b : jstr) (c : ascii) :
  pat <> [] ->
  (forall p, In p pat -> Ascii.eqb p c = false) ->
  occurrences pat (a ++ c :: b) = occurrences pat a + occurrences pat b.
Proof.
  intros Hne Hc. unfold occurrences. rewrite scan_sep by assumption.
  rewrite filter_app, length_app. rewrite filter_cons_False by (cbn; discriminate).
  reflexivity.
Qed.

Lemma occurrences_clean (pat s : jstr) :
  includes pat s = false -> occurrences pat s = 0.
Proof.
  intros H. unfold occurrences. rewrite scan_no_occurs by exact H.
  rewrite hits_lits. reflexivity.
Qed.

Lemma occurrences_prefix (p0 : ascii) (pat a s : jstr) :
  forallb (fun x => negb (Ascii.eqb p0 x)) a = true ->
  occurrences (p0 :: pat) (a ++ s) = occurrences (p0 :: pat) s.
Proof.
  induction a as [|x a IH]; [reflexivity|]. cbn [forallb app].
  intros H. apply andb_true_iff in H as [Hx Ha]. apply negb_true_iff in Hx.
  unfold occurrences in *. cbn [scan starts_with]. rewrite Hx. cbn [andb].
  rewrite filter_cons_False by (cbn; discriminate). apply IH, Ha.
Qed.

Lemma occurs_mid (x a b : jstr) : includes x (a ++ x ++ b) = true.
Proof.
  unfold includes.
  assert (Hsw : forall y t, starts_with Ascii.eqb y (y ++ t) = true).
  { induction y as [|c y IH]; intros t; [reflexivity|].
    cbn [app starts_with]. rewrite Ascii.eqb_refl. apply IH. }
  induction a as [|c a IH].
  - cbn [app]. destruct (x ++ b) eqn:E; cbn [occurs]; rewrite <- E, Hsw; reflexivity.
  - cbn [app occurs]. rewrite IH. apply orb_true_r.
Qed.

Lemma newline_not_in_delimiter (p : ascii) :
  In p REFERENCE_START -> Ascii.eqb p nl = false.
Proof.
  intros Hp. cbn in Hp.
  repeat (destruct Hp as [<-|Hp]; [reflexivity|]). destruct Hp.
Qed.

Lemma REFERENCE_START_nonempty : REFERENCE_START <> [].
Proof. discriminate. Qed.

(** A block, line by line. *)
Lemma formatReference_lines (r : Types.ReferenceItem) :
  formatReference r =
  nl :: REFERENCE_START ++ nl
  :: (lit "ID: " ++ Types.id r) ++ nl
  :: (lit "SOURCE_TYPE: " ++ Types.SourceType_value (Types.sourceType r)) ++ nl
  :: lit "TEXT:" ++ nl
  :: Types.text r ++ nl
  :: REFERENCE_END ++ [nl].
Proof.
  unfold formatReference. rewrite <- !app_assoc. reflexivity.
Qed.

Lemma occurrences_block (r : Types.ReferenceItem) :
  occurrences REFERENCE_START (formatReference r) =
  1 + (occurrences REFERENCE_START (Types.id r)
       + occurrences REFERENCE_START (Types.text r)).
Proof.
  rewrite formatReference_lines.
  pose proof REFERENCE_START_nonempty as Hne.
  pose proof newline_not_in_delimiter as Hnl.
  change (nl :: REFERENCE_START ++ ?x) with ([] ++ nl :: REFERENCE_START ++ x).
  rewrite (occurrences_sep REFERENCE_START []) by assumption.
  rewrite (occurrences_sep REFERENCE_START REFERENCE_START) by assumption.
  rewrite (occurrences_sep REFERENCE_START (lit "ID: " ++ _)) by assumption.
  rewrite (occurrences_sep REFERENCE_START (lit "SOURCE_TYPE: " ++ _)) by assumption.
  rewrite (occurrences_sep REFERENCE_START (lit "TEXT:")) by assumption.
  rewrite (occurrences_sep REFERENCE_START (Types.text r)) by assumption.
  change (REFERENCE_END ++ [nl]) with (REFERENCE_END ++ nl :: []).
  rewrite (occurrences_sep REFERENCE_START REFERENCE_END) by assumption.
  change REFERENCE_START with ("-"%char :: lit "--REFERENCE_START---") at 4.
  rewrite (occurrences_prefix "-"%char _ (lit "ID: ")) by reflexivity.
  change ("-"%char :: lit "--REFERENCE_START---") with REFERENCE_START.
  replace (occurrences REFERENCE_START
             (lit "SOURCE_TYPE: " ++ Types.SourceType_value (Types.sourceType r)))
    with 0 by (destruct (Types.sourceType r); reflexivity).
  change (occurrences REFERENCE_START []) with 0.
  change (occurrences REFERENCE_START REFERENCE_START) with 1.
  change (occurrences REFERENCE_START (lit "TEXT:")) with 0.
  change (occurrences REFERENCE_START REFERENCE_END) with 0.
  lia.
Qed.

Lemma join_cons (sep p : jstr) (rest : list jstr) :
  join sep (p :: rest) =
  p ++ match rest with [] => [] | _ :: _ => sep ++ join sep rest end.
Proof. destruct rest; cbn [join]; [rewrite app_nil_r|]; reflexivity. Qed.

Lemma occurrences_formatted (references : list Types.ReferenceItem) :
  occurrences REFERENCE_START (formattedReferences references) =
  length references
  + list_sum (map (fun r => occurrences REFERENCE_START (Types.id r)
                            + occurrences REFERENCE_START (Types.text r))
                references).
Proof.
  unfold formattedReferences.
  induction references as [|r rest IH]; [reflexivity|].
  cbn [map]. rewrite join_cons. destruct rest as [|r' rest].
  - rewrite app_nil_r, occurrences_block. cbn [length list_sum map fold_right]. lia.
  - cbn [map app]. rewrite occurrences_sep
      by (exact REFERENCE_START_nonempty || exact newline_not_in_delimiter).
    rewrite occurrences_block. cbn [map] in IH. rewrite IH.
    cbn [length list_sum map fold_right]. lia.
Qed.

(** *** trim *)

Lemma trimStart_blank (s : jstr) :
  trimStart s = [] <-> forallb is_space s = true.
Proof.
  induction s as [|c s IH]; cbn [trimStart forallb]; [tauto|].
  destruct (is_space c); cbn [andb]; [exact IH|]. split; discriminate.
Qed.

Lemma trimStart_keeps_blankness (s : jstr) :
  forallb is_space (trimStart s) = forallb is_space s.
Proof.
  induction s as [|c s IH]; [reflexivity|]. cbn [trimStart].
  destruct (is_space c) eqn:E; cbn [forallb]; rewrite E; [exact IH|reflexivity].
Qed.

Lemma forallb_rev (f : ascii -> bool) (s : jstr) :
  forallb f (rev s) = forallb f s.
Proof.
  induction s as [|c s IH]; [reflexivity|].
  cbn [rev forallb]. rewrite forallb_app, IH. cbn [forallb].
  rewrite andb_true_r. apply andb_comm.
Qed.

Lemma trim_blank (s : jstr) : trim s = [] <-> forallb is_space s = true.
Proof.
  unfold trim, trimEnd.
  rewrite <- trimStart_keeps_blankness, <- (forallb_rev _ (trimStart s)).
  rewrite <- trimStart_blank. split.
  - intros H. apply (f_equal (@rev ascii)) in H. rewrite rev_involutive in H. exact H.
  - intros ->. reflexivity.
Qed.

Lemma referencesSection_cases (references : list Types.ReferenceItem) :
  referencesSection references =
  match references with
  | [] => lit "(No local references provided)"
  | _ :: _ => formattedReferences references
  end.
Proof.
  unfold referencesSection. destruct references as [|r rest]; [reflexivity|].
  destruct (truthy (trim (formattedReferences (r :: rest)))) eqn:E; [reflexivity|].
  exfalso. destruct (trim (formattedReferences (r :: rest))) eqn:Ht; [|discriminate].
  apply trim_blank in Ht. unfold formattedReferences in Ht. cbn [map] in Ht.
  rewrite join_cons, formatReference_lines in Ht. cbn in Ht. discriminate.
Qed.

End Prompt.

(** C6 (as amended).  For every list of N reference records the references
    section of the prompt is the N blocks joined by a newline (each block
    begins and ends with one, which leaves blank lines between blocks); a
    block holds the start delimiter, the reference's ID, its source type and
    its text, and the end delimiter, each on lines of their own.  Counting
    the start delimiters in the section gives N plus the number of times the
    delimiter occurs inside the IDs and texts themselves: exactly N when no
    ID and no text contains the delimiter. *)
Theorem reference_blocks (references : list Types.ReferenceItem) :
  GeminiService.formattedReferences references
  = join [nl] (map GeminiService.formatReference references)
  /\ (forall r,
        GeminiService.formatReference r =
        nl :: GeminiService.REFERENCE_START ++ nl
        :: (lit "ID: " ++ Types.id r) ++ nl
        :: (lit "SOURCE_TYPE: " ++ Types.SourceType_value (Types.sourceType r)) ++ nl
        :: lit "TEXT:" ++ nl
        :: Types.text r ++ nl
        :: GeminiService.REFERENCE_END ++ [nl])
  /\ occurrences GeminiService.REFERENCE_START
       (GeminiService.referencesSection references)
     = length references
       + list_sum
           (map (fun r =>
                   occurrences GeminiService.REFERENCE_START (Types.id r)
                   + occurrences GeminiService.REFERENCE_START (Types.text r))
              references)
  /\ ((forall r, In r references ->
         includes GeminiService.REFERENCE_START (Types.id r) = false
         /\ includes GeminiService.REFERENCE_START (Types.text r) = false) ->
      occurrences GeminiService.REFERENCE_START
        (GeminiService.referencesSection references)
      = length references).
Proof.
  assert (Hcount :
    occurrences GeminiService.REFERENCE_START
      (GeminiService.referencesSection references)
    = length references
      + list_sum
          (map (fun r =>
                  occurrences GeminiService.REFERENCE_START (Types.id r)
                  + occurrences GeminiService.REFERENCE_START (Types.text r))
             references)).
  { rewrite referencesSection_cases. destruct references as [|r rest].
    - reflexivity.
    - apply occurrences_formatted. }
  split; [reflexivity|]. split; [apply formatReference_lines|].
  split; [exact Hcount|].
  intros Hclean. rewrite Hcount.
  replace (list_sum _) with 0; [lia|].
  clear Hcount. induction references as [|r rest IH]; [reflexivity|].
  cbn [map list_sum fold_right].
  destruct (Hclean r (or_introl eq_refl)) as [Hid Htext].
  rewrite (occurrences_clean _ _ Hid), (occurrences_clean _ _ Htext).
  cbn [Nat.add]. apply IH. intros r' Hr'. apply Hclean. right. exact Hr'.
Qed.

(** Two freshly added references. *)
Lemma reference_blocks_witness :
  occurrences GeminiService.REFERENCE_START
    (GeminiService.referencesSection
       [ReferenceList.newRef 0; ReferenceList.newRef 1]) = 2.
Proof.
  destruct (reference_blocks [ReferenceList.newRef 0; ReferenceList.newRef 1])
    as (_ & _ & _ & H).
  apply H. intros r [<-|[<-|[]]]; split; vm_compute; reflexivity.
Defined.

(** C6 as stated fails: one reference whose text quotes the start delimiter
    is counted as two blocks. *)
Lemma reference_blocks_counterexample :
  occurrences GeminiService.REFERENCE_START
    (GeminiService.referencesSection [Samples.quoting_reference])
  <> length [Samples.quoting_reference].
Proof. vm_compute. discriminate. Qed.

(** * Extraction *)

Section Extraction.

Import GeminiService PdfUtils.

Lemma pagesFrom_readable (pdf : PDFDocumentProxy) (pages : list TextContent)
    (i : nat) (fullText : jstr) :
  (forall k tc, pages !! k = Some tc ->
     exists page, getPage pdf (i + k) = Ok page /\ getTextContent page = Ok tc) ->
  pagesFrom pdf i (length pages) fullText =
  Ok (fullText ++ concat (map pageBlock pages)).
Proof.
  revert i fullText. induction pages as [|tc pages IH]; intros i fullText H.
  - cbn. rewrite app_nil_r. reflexivity.
  - cbn [length pagesFrom].
    destruct (H 0 tc eq_refl) as (page & Hp & Ht).
    rewrite Nat.add_0_r in Hp. rewrite Hp. cbn [bindR]. rewrite Ht. cbn [bindR].
    rewrite IH.
    + cbn [map concat]. unfold pageBlock. rewrite <- !app_assoc. reflexivity.
    + intros k tc' Hk. specialize (H (S k) tc' Hk).
      rewrite Nat.add_succ_r in H. exact H.
Qed.

Lemma pagesFrom_fails (pdf : PDFDocumentProxy) (count i k : nat) (fullText : jstr) :
  k < count -> page_fails pdf (i + k) ->
  exists e, pagesFrom pdf i count fullText = Throw e.
Proof.
  revert i k fullText. induction count as [|count IH]; intros i k fullText Hk Hf; [lia|].
  cbn [pagesFrom].
  destruct (getPage pdf i) as [page|e] eqn:Hp; cbn [bindR]; [|eauto].
  destruct (getTextContent page) as [tc|e] eqn:Ht; cbn [bindR]; [|eauto].
  destruct k as [|k].
  - rewrite Nat.add_0_r in Hf. destruct Hf as [(e & He)|(page' & e & Hp' & He)];
      congruence.
  - apply (IH (S i) k); [lia|]. rewrite Nat.add_succ_r in Hf. exact Hf.
Qed.

Lemma concat_blocks (sep : jstr) (parts : list jstr) :
  parts <> [] ->
  concat (map (fun p => p ++ sep) parts) = join sep parts ++ sep.
Proof.
  induction parts as [|p rest IH]; [congruence|]. intros _.
  destruct rest as [|p' rest].
  - cbn. rewrite app_nil_r. reflexivity.
  - cbn [map concat]. cbn [map concat] in IH. rewrite IH by discriminate.
    cbn [join]. rewrite <- !app_assoc. reflexivity.
Qed.

End Extraction.

(** C9 (as amended).  For every readable paginated document extraction
    returns, in page order, each page's text items joined by a single space
    and followed by a blank line, the last page included: the page texts
    joined by a blank line, with one more blank line at the end.  A file
    whose bytes cannot be read, a document that cannot be opened, or a page
    that cannot be fetched or read makes extraction fail with the error that
    asks for a valid text-based PDF. *)
Theorem pdf_extraction (pdfjs : PdfUtils.Pdfjs) (file : PdfUtils.File) :
  (forall buf pdf pages,
     PdfUtils.arrayBuffer file = GeminiService.Ok buf ->
     PdfUtils.getDocument pdfjs buf = GeminiService.Ok pdf ->
     PdfUtils.readable pdf pages ->
     PdfUtils.extractTextFromPdf pdfjs file
     = GeminiService.Ok (concat (map PdfUtils.pageBlock pages))
     /\ (pages <> [] ->
         concat (map PdfUtils.pageBlock pages)
         = join [nl; nl] (map PdfUtils.pageText pages) ++ [nl; nl])
     /\ (pages = [] -> concat (map PdfUtils.pageBlock pages) = []))
  /\ (forall tc,
        PdfUtils.pageText tc =
        join (lit " ")
          (map (fun item =>
                  match PdfUtils.str item with Some s => s | None => [] end)
             (PdfUtils.items tc)))
  /\ ((exists e, PdfUtils.arrayBuffer file = GeminiService.Throw e)
      \/ (exists buf e,
            PdfUtils.arrayBuffer file = GeminiService.Ok buf
            /\ PdfUtils.getDocument pdfjs buf = GeminiService.Throw e)
      \/ (exists buf pdf k,
            PdfUtils.arrayBuffer file = GeminiService.Ok buf
            /\ PdfUtils.getDocument pdfjs buf = GeminiService.Ok pdf
            /\ 1 <= k <= PdfUtils.numPages pdf
            /\ PdfUtils.page_fails pdf k) ->
      PdfUtils.extractTextFromPdf pdfjs file
      = GeminiService.Throw PdfUtils.extractionFailure)
  /\ GeminiService.message PdfUtils.extractionFailure
     = lit "Failed to extract text from PDF. Please ensure it is a valid text-based PDF.".
Proof.
  split.
  { intros buf pdf pages Hbuf Hdoc [Hlen Hpages]. split; [|split].
    - unfold PdfUtils.extractTextFromPdf. rewrite Hbuf. cbn [GeminiService.bindR].
      rewrite Hdoc. cbn [GeminiService.bindR]. rewrite <- Hlen.
      rewrite pagesFrom_readable; [reflexivity|exact Hpages].
    - intros Hne. unfold PdfUtils.pageBlock.
      rewrite <- (concat_blocks [nl; nl] (map PdfUtils.pageText pages)).
      + rewrite map_map. reflexivity.
      + destruct pages; [congruence|discriminate].
    - intros ->. reflexivity. }
  split; [reflexivity|]. split; [|reflexivity].
  unfold PdfUtils.extractTextFromPdf.
  intros [(e & He)|[(buf & e & Hbuf & He)|(buf & pdf & k & Hbuf & Hdoc & Hk & Hf)]].
  - rewrite He. reflexivity.
  - rewrite Hbuf. cbn [GeminiService.bindR]. rewrite He. reflexivity.
  - rewrite Hbuf. cbn [GeminiService.bindR]. rewrite Hdoc. cbn [GeminiService.bindR].
    destruct (pagesFrom_fails pdf (PdfUtils.numPages pdf) 1 (k - 1) []) as [e He].
    + lia.
    + replace (1 + (k - 1)) with k by lia. exact Hf.
    + rewrite He. reflexivity.
Qed.

(** A document of one page, and a document that cannot be opened. *)
Lemma pdf_extraction_witness :
  PdfUtils.extractTextFromPdf Samples.pdfjs_one_page Samples.some_file
  = GeminiService.Ok (lit "a" ++ [nl; nl])
  /\ PdfUtils.extractTextFromPdf Samples.pdfjs_rejecting Samples.some_file
     = GeminiService.Throw PdfUtils.extractionFailure.
Proof.
  split.
  - destruct (pdf_extraction Samples.pdfjs_one_page Samples.some_file) as (H & _).
    destruct (H [37; 80; 68; 70]%N Samples.one_page [Samples.one_page_content])
      as (H1 & _); [reflexivity|reflexivity| |exact H1].
    split; [reflexivity|]. intros [|k] tc Hk; [|destruct k; discriminate Hk].
    injection Hk as <-. eexists. split; reflexivity.
  - destruct (pdf_extraction Samples.pdfjs_rejecting Samples.some_file)
      as (_ & _ & H & _).
    apply H. right. left. eexists _, _. split; reflexivity.
Defined.

(** C9 as stated fails: for a document of one page the result is not the
    page texts joined by a blank line, it ends with a blank line. *)
Lemma pdf_extraction_counterexample :
  PdfUtils.readable Samples.one_page [Samples.one_page_content]
  /\ PdfUtils.extractTextFromPdf Samples.pdfjs_one_page Samples.some_file
     <> GeminiService.Ok
          (join [nl; nl] (map PdfUtils.pageText [Samples.one_page_content])).
Proof.
  split.
  - split; [reflexivity|]. intros [|k] tc Hk; [|destruct k; discriminate Hk].
    injection Hk as <-. eexists. split; reflexivity.
  - vm_compute. discriminate.
Qed.

(** * More on the reference store *)

Section StoreOperations.

Import ReferenceList.

Lemma filter_index_cut {A} (index k : nat) (l : list A) :
  filter_index (fun i => negb (i =? index)%nat) k l =
  if (index <? k)%nat then l
  else firstn (index - k) l ++ skipn (S (index - k)) l.
Proof.
  revert k. induction l as [|x l IH]; intros k.
  - destruct (index <? k)%nat; [reflexivity|].
    rewrite firstn_nil, skipn_nil. reflexivity.
  - cbn [filter_index]. rewrite IH.
    destruct (Nat.eqb_spec k index) as [->|Hne]; cbn [negb].
    + replace (index <? S index)%nat with true by (symmetry; apply Nat.ltb_lt; lia).
      rewrite Nat.ltb_irrefl, Nat.sub_diag. reflexivity.
    + destruct (Nat.ltb_spec index k) as [H|H].
      * replace (index <? S k)%nat with true by (symmetry; apply Nat.ltb_lt; lia).
        reflexivity.
      * replace (index <? S k)%nat with false by (symmetry; apply Nat.ltb_ge; lia).
        replace (index - k) with (S (index - S k)) by lia. reflexivity.
Qed.

Lemma removeReference_references (index : nat) (st : store) :
  references (removeReference index st) =
  firstn index (references st) ++ skipn (S index) (references st).
Proof.
  unfold removeReference. cbn [references]. rewrite filter_index_cut.
  cbn. rewrite Nat.sub_0_r. reflexivity.
Qed.

(** The records of a well-formed store, slot by slot. *)
Lemma wf_contents (st : store) :
  wf st ->
  Forall2 (fun l r => heap st !! l = Some r) (references st) (contents st).
Proof.
  unfold wf, contents. induction (references st) as [|l ls IH]; intros Hwf.
  - constructor.
  - destruct (Hwf l) as [r Hr]; [left|].
    change (omap (fun l0 => heap st !! l0) (l :: ls))
      with (match heap st !! l with
            | Some y => y :: omap (fun l0 => heap st !! l0) ls
            | None => omap (fun l0 => heap st !! l0) ls
            end).
    rewrite Hr. constructor; [exact Hr|].
    apply IH. intros l0 Hl0. apply Hwf. right. exact Hl0.
Qed.

Lemma omap_Forall2 {A B} (f : A -> option B) (l : list A) (rs : list B) :
  Forall2 (fun x y => f x = Some y) l rs -> omap f l = rs.
Proof.
  induction 1 as [|x y l rs Hxy _ IH]; [reflexivity|].
  change (omap f (x :: l))
    with (match f x with Some z => z :: omap f l | None => omap f l end).
  rewrite Hxy, IH. reflexivity.
Qed.

Lemma removeReference_contents (index : nat) (st : store) :
  wf st ->
  contents (removeReference index st) =
  firstn index (contents st) ++ skipn (S index) (contents st).
Proof.
  intros Hwf. pose proof (wf_contents st Hwf) as H.
  unfold contents at 1. rewrite removeReference_references.
  change (heap (removeReference index st)) with (heap st).
  rewrite omap_app. f_equal; apply omap_Forall2.
  - apply Forall2_take, H.
  - apply Forall2_drop, H.
Qed.

Lemma updateReference_contents (index : nat) (f : field) (value : field_type f)
    (st st' : store) (r : Types.ReferenceItem) :
  wf st -> contents st !! index = Some r ->
  updateReference index f value st = Some st' ->
  contents st' = <[index := set f value r]> (contents st).
Proof.
  intros Hwf Hr Hup. pose proof (wf_contents st Hwf) as H.
  unfold updateReference in Hup.
  destruct (references st !! index) as [l|] eqn:Hl; [|discriminate].
  destruct (heap st !! l) as [r0|] eqn:Hr0; [|discriminate].
  injection Hup as <-.
  assert (r0 = r) as ->.
  { destruct (Forall2_lookup_l _ _ _ _ _ H Hl) as (r1 & Hr1 & Hh). congruence. }
  unfold contents at 1. cbn [heap references].
  apply omap_Forall2. apply Forall2_insert.
  - eapply Forall2_impl; [exact H|]. intros l0 r1 H1. apply heap_extend, H1.
  - apply lookup_insert_eq.
Qed.

Lemma contents_length (st : store) :
  wf st -> length (contents st) = length (references st).
Proof. intros Hwf. symmetry. eapply Forall2_length, wf_contents, Hwf. Qed.

End StoreOperations.

(** X1.  Removing at an index cuts that slot out of the array: the slots
    before it stay, the ones after it move down by one, and no record is
    touched; an index beyond the array leaves the array as it is. *)
Theorem remove_reference (st : ReferenceList.store) (index : nat) :
  ReferenceList.heap (ReferenceList.removeReference index st)
  = ReferenceList.heap st
  /\ ReferenceList.references (ReferenceList.removeReference index st)
     = firstn index (ReferenceList.references st)
       ++ skipn (S index) (ReferenceList.references st)
  /\ (forall j, j < index ->
        ReferenceList.references (ReferenceList.removeReference index st) !! j
        = ReferenceList.references st !! j)
  /\ (forall j, index <= j -> index < length (ReferenceList.references st) ->
        ReferenceList.references (ReferenceList.removeReference index st) !! j
        = ReferenceList.references st !! (S j))
  /\ (index < length (ReferenceList.references st) ->
      S (length (ReferenceList.references (ReferenceList.removeReference index st)))
      = length (ReferenceList.references st))
  /\ (length (ReferenceList.references st) <= index ->
      ReferenceList.references (ReferenceList.removeReference index st)
      = ReferenceList.references st)
  /\ (ReferenceList.wf st ->
      ReferenceList.wf (ReferenceList.removeReference index st)
      /\ ReferenceList.contents (ReferenceList.removeReference index st)
         = firstn index (ReferenceList.contents st)
           ++ skipn (S index) (ReferenceList.contents st)).
Proof.
  split; [reflexivity|].
  split; [apply removeReference_references|].
  rewrite removeReference_references.
  split.
  { intros j Hj. destruct (Nat.lt_ge_cases j (length (ReferenceList.references st))).
    - rewrite lookup_app_l by (rewrite length_take; lia).
      apply lookup_take_lt, Hj.
    - rewrite (lookup_ge_None_2 (ReferenceList.references st)) by lia.
      apply lookup_ge_None_2. rewrite length_app, length_take, length_drop. lia. }
  split.
  { intros j Hj Hlen. rewrite lookup_app_r by (rewrite length_take; lia).
    rewrite length_take, lookup_drop. f_equal. lia. }
  split.
  { intros Hlen. rewrite length_app, length_take, length_drop. lia. }
  split.
  { intros Hlen. rewrite firstn_all2 by lia. rewrite skipn_all2 by lia.
    apply app_nil_r. }
  intros Hwf. split; [apply removeReference_wf, Hwf|].
  apply removeReference_contents, Hwf.
Qed.

(** Removing the first of two references. *)
Lemma remove_reference_witness :
  ReferenceList.contents
    (ReferenceList.removeReference 0 MoreSamples.two_references)
  = [ReferenceList.newRef 1].
Proof.
  destruct (remove_reference MoreSamples.two_references 0)
    as (_ & _ & _ & _ & _ & _ & H).
  destruct H as [_ H].
  - apply addReference_wf, addReference_wf, empty_wf.
  - rewrite H. vm_compute. reflexivity.
Defined.

(** X2.  Adding a reference and removing it again (it is the last one)
    gives back the array of before, with the same records. *)
Theorem add_then_remove (st : ReferenceList.store) :
  ReferenceList.references
    (ReferenceList.removeReference (length (ReferenceList.references st))
       (ReferenceList.addReference st))
  = ReferenceList.references st
  /\ (ReferenceList.wf st ->
      ReferenceList.contents
        (ReferenceList.removeReference (length (ReferenceList.references st))
           (ReferenceList.addReference st))
      = ReferenceList.contents st).
Proof.
  assert (Hrefs :
    ReferenceList.references
      (ReferenceList.removeReference (length (ReferenceList.references st))
         (ReferenceList.addReference st))
    = ReferenceList.references st).
  { rewrite removeReference_references.
    unfold ReferenceList.addReference. cbn [ReferenceList.references].
    rewrite firstn_app, Nat.sub_diag, firstn_all. cbn [firstn].
    rewrite skipn_all2 by (rewrite length_app; cbn; lia).
    rewrite !app_nil_r. reflexivity. }
  split; [exact Hrefs|].
  intros Hwf. unfold ReferenceList.contents at 1. rewrite Hrefs.
  apply omap_agree. intros l Hl. destruct (Hwf l Hl) as [r Hr].
  rewrite Hr. cbn. apply heap_extend, Hr.
Qed.

(** Adding to and removing from the store of two references. *)
Lemma add_then_remove_witness :
  ReferenceList.contents
    (ReferenceList.removeReference 2
       (ReferenceList.addReference MoreSamples.two_references))
  = [ReferenceList.newRef 0; ReferenceList.newRef 1].
Proof.
  destruct (add_then_remove MoreSamples.two_references) as [_ H].
  change 2 with (length (ReferenceList.references MoreSamples.two_references)).
  rewrite H; [vm_compute; reflexivity|].
  apply addReference_wf, addReference_wf, empty_wf.
Defined.

Lemma updateReference_valid (st : ReferenceList.store) (index : nat)
    (f : ReferenceList.field) (value : ReferenceList.field_type f)
    (r : Types.ReferenceItem) :
  ReferenceList.wf st ->
  ReferenceList.contents st !! index = Some r ->
  exists st',
    ReferenceList.updateReference index f value st = Some st'
    /\ ReferenceList.wf st'
    /\ ReferenceList.contents st'
       = <[index := ReferenceList.set f value r]> (ReferenceList.contents st).
Proof.
  intros Hwf Hr.
  assert (Hidx : index < length (ReferenceList.references st)).
  { rewrite <- contents_length by exact Hwf. eapply lookup_lt_Some, Hr. }
  destruct (lookup_lt_is_Some_2 _ _ Hidx) as [l Hl].
  destruct (Hwf l) as [r0 Hr0]; [apply list_elem_of_lookup; eauto|].
  assert (Hup : exists st', ReferenceList.updateReference index f value st = Some st').
  { unfold ReferenceList.updateReference. rewrite Hl, Hr0. eauto. }
  destruct Hup as [st' Hup]. exists st'.
  split; [exact Hup|].
  split; [eapply updateReference_wf; eassumption|].
  apply (updateReference_contents index f value st st' r Hwf Hr Hup).
Qed.

(** X3.  In a store whose slots all point at records, an update at a valid
    index always goes through, keeps the store in that shape, and changes
    the list of records at that index only: the record there gets the field,
    the list keeps its length and its other records. *)
Theorem update_contents (st : ReferenceList.store) (index : nat)
    (f : ReferenceList.field) (value : ReferenceList.field_type f)
    (r : Types.ReferenceItem) :
  ReferenceList.wf st ->
  ReferenceList.contents st !! index = Some r ->
  exists st',
    ReferenceList.updateReference index f value st = Some st'
    /\ ReferenceList.wf st'
    /\ ReferenceList.contents st'
       = <[index := ReferenceList.set f value r]> (ReferenceList.contents st)
    /\ length (ReferenceList.contents st') = length (ReferenceList.contents st)
    /\ (forall j, j <> index ->
          ReferenceList.contents st' !! j = ReferenceList.contents st !! j).
Proof.
  intros Hwf Hr.
  destruct (updateReference_valid st index f value r Hwf Hr)
    as (st' & Hup & Hwf' & Hc).
  exists st'. split; [exact Hup|]. split; [exact Hwf'|]. rewrite Hc.
  split; [reflexivity|]. split; [apply length_insert|].
  intros j Hj. apply list_lookup_insert_ne. congruence.
Qed.

(** Renaming the second of two references. *)
Lemma update_contents_witness :
  exists st',
    ReferenceList.updateReference 1 ReferenceList.F_id (lit "SMITH-2020")
      MoreSamples.two_references = Some st'
    /\ map Types.id (ReferenceList.contents st')
       = [lit "REF-001"; lit "SMITH-2020"].
Proof.
  destruct (update_contents MoreSamples.two_references 1 ReferenceList.F_id
              (lit "SMITH-2020") (ReferenceList.newRef 1))
    as (st' & Hup & _ & Hc & _).
  - apply addReference_wf, addReference_wf, empty_wf.
  - vm_compute. reflexivity.
  - exists st'. split; [exact Hup|]. rewrite Hc. vm_compute. reflexivity.
Defined.

(** X4.  Toggling a row flips its expansion flag (an absent flag counts as
    collapsed, so the row becomes expanded) and keeps its id, source type and
    text and all other rows; toggling twice gives back the records of
    before whenever the flag was present. *)
Theorem toggle_expand (st : ReferenceList.store) (index : nat)
    (r : Types.ReferenceItem) :
  ReferenceList.wf st ->
  ReferenceList.contents st !! index = Some r ->
  exists st' st'',
    ReferenceList.toggleExpand index st = Some st'
    /\ ReferenceList.contents st'
       = <[index :=
            {| Types.id := Types.id r;
               Types.sourceType := Types.sourceType r;
               Types.text := Types.text r;
               Types.isExpanded :=
                 Some (negb (match Types.isExpanded r with
                             | Some b => b
                             | None => false
                             end)) |}]> (ReferenceList.contents st)
    /\ ReferenceList.toggleExpand index st' = Some st''
    /\ (forall b, Types.isExpanded r = Some b ->
          ReferenceList.contents st'' = ReferenceList.contents st).
Proof.
  intros Hwf Hr.
  pose proof (wf_contents st Hwf) as HF.
  destruct (Forall2_lookup_r _ _ _ _ _ HF Hr) as (l & Hl & Hh).
  set (cur := match Types.isExpanded r with Some b => b | None => false end).
  destruct (updateReference_valid st index ReferenceList.F_isExpanded
              (Some (negb cur)) r Hwf Hr) as (st' & Hup & Hwf' & Hc).
  assert (Hr' : ReferenceList.contents st' !! index
                = Some (ReferenceList.set ReferenceList.F_isExpanded
                          (Some (negb cur)) r)).
  { rewrite Hc. apply list_lookup_insert_eq. eapply lookup_lt_Some, Hr. }
  pose proof (wf_contents st' Hwf') as HF'.
  destruct (Forall2_lookup_r _ _ _ _ _ HF' Hr') as (l' & Hl' & Hh').
  destruct (updateReference_valid st' index ReferenceList.F_isExpanded
              (Some (negb (negb cur)))
              (ReferenceList.set ReferenceList.F_isExpanded (Some (negb cur)) r)
              Hwf' Hr') as (st'' & Hup' & _ & Hc').
  exists st', st''.
  split; [unfold ReferenceList.toggleExpand; rewrite Hl, Hh; exact Hup|].
  split; [exact Hc|].
  split; [unfold ReferenceList.toggleExpand; rewrite Hl', Hh'; exact Hup'|].
  intros b Hb. rewrite Hc', Hc, list_insert_insert_eq.
  apply list_insert_id. rewrite Hr. f_equal.
  subst cur. rewrite Hb, negb_involutive. destruct r. cbn in *. congruence.
Qed.

(** Collapsing and expanding the first of two references. *)
Lemma toggle_expand_witness :
  exists st' st'',
    ReferenceList.toggleExpand 0 MoreSamples.two_references = Some st'
    /\ map Types.isExpanded (ReferenceList.contents st') = [Some false; Some true]
    /\ ReferenceList.toggleExpand 0 st' = Some st''
    /\ ReferenceList.contents st''
       = ReferenceList.contents MoreSamples.two_references.
Proof.
  destruct (toggle_expand MoreSamples.two_references 0 (ReferenceList.newRef 0))
    as (st' & st'' & H1 & H2 & H3 & H4).
  - apply addReference_wf, addReference_wf, empty_wf.
  - vm_compute. reflexivity.
  - exists st', st''. split; [exact H1|].
    split; [rewrite H2; vm_compute; reflexivity|].
    split; [exact H3|]. apply (H4 true). reflexivity.
Defined.

(** * Ids without removals *)

Section FreshIds.

Import ReferenceList.

Lemma newRef_id_inj (a b : nat) :
  Types.id (newRef a) = Types.id (newRef b) -> a = b.
Proof.
  intros E.
  destruct (newRef_digits a) as (da & Ha & _ & Va & _).
  destruct (newRef_digits b) as (db & Hb & _ & Vb & _).
  rewrite Ha, Hb in E. apply app_inv_head in E. subst db. lia.
Qed.

Lemma adds_from_empty (n : nat) :
  wf (Nat.iter n addReference empty)
  /\ contents (Nat.iter n addReference empty) = map newRef (seq 0 n).
Proof.
  induction n as [|n [Hwf Hc]].
  - split; [apply empty_wf|reflexivity].
  - change (Nat.iter (S n) addReference empty)
      with (addReference (Nat.iter n addReference empty)).
    set (st := Nat.iter n addReference empty) in *.
    split; [apply addReference_wf, Hwf|].
    assert (Hlen : length (references st) = n).
    { rewrite <- (contents_length _ Hwf), Hc, length_map, length_seq. reflexivity. }
    unfold contents at 1, addReference. cbn [heap references].
    rewrite omap_app. rewrite seq_S, map_app. cbn [map]. f_equal.
    + rewrite <- Hc. apply omap_agree. intros l Hl.
      destruct (Hwf l Hl) as [r Hr]. rewrite Hr. apply heap_extend, Hr.
    + simpl. rewrite lookup_insert_eq, Hlen. reflexivity.
Qed.

End FreshIds.

(** X5.  As long as nothing is removed or renamed the generated ids are
    unique: after n additions to the empty list the records are numbered
    1 to n in order and no two of them bear the same id. *)
Theorem ids_unique_without_removal (n : nat) :
  ReferenceList.contents (Nat.iter n ReferenceList.addReference ReferenceList.empty)
  = map ReferenceList.newRef (seq 0 n)
  /\ NoDup (map Types.id
              (ReferenceList.contents
                 (Nat.iter n ReferenceList.addReference ReferenceList.empty)))
  /\ (forall k r,
        ReferenceList.contents
          (Nat.iter n ReferenceList.addReference ReferenceList.empty) !! k = Some r ->
        exists digits,
          Types.id r = lit "REF-" ++ digits /\ decimal_value digits = k + 1).
Proof.
  destruct (adds_from_empty n) as [_ Hc]. rewrite Hc.
  split; [reflexivity|]. split.
  - rewrite map_map. apply NoDup_ListNoDup.
    apply Finite.Injective_map_NoDup; [|apply seq_NoDup].
    intros a b E. apply newRef_id_inj, E.
  - intros k r Hk. apply list_lookup_fmap_Some in Hk as (i & -> & Hi).
    apply lookup_seq in Hi as [-> _]. cbn [Nat.add].
    destruct (newRef_digits k) as (digits & Hid & _ & Hv & _).
    exists digits. split; assumption.
Qed.

(** * The rows of the reference list *)

Lemma substring_prefix (s : jstr) (n : nat) :
  substring s 0 (Z.of_nat n) = firstn n s.
Proof.
  unfold substring, clamp.
  replace (Z.min (Z.max 0 0) (Z.of_nat (length s))) with 0%Z by lia.
  destruct (Nat.le_gt_cases n (length s)) as [H|H].
  - replace (Z.min (Z.max (Z.of_nat n) 0) (Z.of_nat (length s)))
      with (Z.of_nat n) by lia.
    replace (Z.max 0 (Z.of_nat n)) with (Z.of_nat n) by lia.
    replace (Z.min 0 (Z.of_nat n)) with 0%Z by lia.
    rewrite Z.sub_0_r, Nat2Z.id. reflexivity.
  - replace (Z.min (Z.max (Z.of_nat n) 0) (Z.of_nat (length s)))
      with (Z.of_nat (length s)) by lia.
    replace (Z.max 0 (Z.of_nat (length s))) with (Z.of_nat (length s)) by lia.
    replace (Z.min 0 (Z.of_nat (length s))) with 0%Z by lia.
    rewrite Z.sub_0_r, Nat2Z.id. cbn [Z.to_nat skipn].
    rewrite firstn_all, firstn_all2 by lia. reflexivity.
Qed.

(** X6.  The summary line of a row is the placeholder for an empty text,
    the text itself up to 40 characters, and the first 40 characters followed
    by three dots for a longer one; it never exceeds 43 characters. *)
Theorem row_preview (ref : Types.ReferenceItem) :
  (Types.text ref = [] -> ReferenceListView.preview ref = lit "Empty Reference")
  /\ (Types.text ref <> [] -> length (Types.text ref) <= 40 ->
      ReferenceListView.preview ref = Types.text ref)
  /\ (40 < length (Types.text ref) ->
      ReferenceListView.preview ref = firstn 40 (Types.text ref) ++ lit "...")
  /\ length (ReferenceListView.preview ref) <= 43.
Proof.
  unfold ReferenceListView.preview.
  change 40%Z with (Z.of_nat 40). rewrite substring_prefix.
  destruct (Types.text ref) as [|c t] eqn:E.
  - cbn [truthy]. split; [reflexivity|]. split; [congruence|].
    split; [cbn; lia|]. change (length (lit "Empty Reference")) with 15. lia.
  - cbn [truthy]. destruct (Nat.ltb_spec 40 (length (c :: t))) as [H|H].
    + split; [discriminate|]. split; [intros; lia|]. split; [reflexivity|].
      rewrite length_app, length_take.
      change (length (lit "...")) with 3. lia.
    + rewrite app_nil_r, firstn_all2 by exact H.
      split; [discriminate|]. split; [reflexivity|]. split; [intros; lia|lia].
Qed.

(** A text of 41 characters. *)
Lemma row_preview_witness :
  ReferenceListView.preview
    {| Types.id := lit "REF-001"; Types.sourceType := Types.PAPER;
       Types.text := lit "0123456789012345678901234567890123456789X";
       Types.isExpanded := None |}
  = lit "0123456789012345678901234567890123456789...".
Proof.
  destruct (row_preview
              {| Types.id := lit "REF-001"; Types.sourceType := Types.PAPER;
                 Types.text := lit "0123456789012345678901234567890123456789X";
                 Types.isExpanded := None |}) as (_ & _ & H & _).
  rewrite H; [reflexivity|]. cbn. lia.
Defined.

(** * The reference upload *)

Section ReferenceUpload.

Import GeminiService ReferenceList ReferenceListView.

Lemma wf_row (st : store) (index : nat) (r : Types.ReferenceItem) :
  wf st -> contents st !! index = Some r ->
  exists l, references st !! index = Some l /\ heap st !! l = Some r.
Proof.
  intros Hwf Hr. pose proof (wf_contents st Hwf) as HF.
  destruct (Forall2_lookup_r _ _ _ _ _ HF Hr) as (l & Hl & Hh). eauto.
Qed.

End ReferenceUpload.

(** X7.  Uploading a file to an existing row: when the file can be read,
    the row's text becomes the file's text, the other records stay, nothing
    is alerted, and while the file is read the upload button is disabled for
    exactly the rows that bear the id of that row; when it cannot be read,
    the fixed alert is shown (the cause is not) and no array is handed to
    the parent.  In both cases the processing id ends cleared.  Without a
    file nothing happens at all. *)
Theorem reference_upload (pdfjs : PdfUtils.Pdfjs) (st : ReferenceList.store)
    (index : nat) (r : Types.ReferenceItem) (file : Files.FileHandle) :
  ReferenceList.wf st ->
  ReferenceList.contents st !! index = Some r ->
  (forall text, Files.readFile pdfjs file = GeminiService.Ok text ->
     exists st',
       ReferenceListView.handleFileUpload pdfjs index (Some file) st
       = Some {| ReferenceListView.processingIds := [Some (Types.id r); None];
                 ReferenceListView.alerts := [];
                 ReferenceListView.onUpdate := Some st' |}
       /\ ReferenceList.contents st'
          = <[index := ReferenceList.set ReferenceList.F_text text r]>
              (ReferenceList.contents st))
  /\ (forall e, Files.readFile pdfjs file = GeminiService.Throw e ->
        ReferenceListView.handleFileUpload pdfjs index (Some file) st
        = Some {| ReferenceListView.processingIds := [Some (Types.id r); None];
                  ReferenceListView.alerts :=
                    [lit "Failed to read file. Please check if it is a valid PDF or Text file."];
                  ReferenceListView.onUpdate := None |})
  /\ (forall row,
        ReferenceListView.uploadDisabled (Some (Types.id r)) row = true
        <-> Types.id row = Types.id r)
  /\ ReferenceListView.handleFileUpload pdfjs index None st
     = Some {| ReferenceListView.processingIds := [];
               ReferenceListView.alerts := [];
               ReferenceListView.onUpdate := None |}.
Proof.
  intros Hwf Hr. destruct (wf_row st index r Hwf Hr) as (l & Hl & Hh).
  split.
  { intros text Hread.
    destruct (updateReference_valid st index ReferenceList.F_text text r Hwf Hr)
      as (st' & Hup & _ & Hc).
    exists st'. split; [|exact Hc].
    unfold ReferenceListView.handleFileUpload. rewrite Hl, Hh, Hread, Hup.
    reflexivity. }
  split.
  { intros e Hread. unfold ReferenceListView.handleFileUpload.
    rewrite Hl, Hh, Hread. reflexivity. }
  split; [|reflexivity].
  intros row. unfold ReferenceListView.uploadDisabled.
  rewrite bool_decide_eq_true. split; congruence.
Qed.

(** A text file and an unreadable file, uploaded to the second of two
    references. *)
Lemma reference_upload_witness :
  (exists st',
     ReferenceListView.handleFileUpload Samples.pdfjs_one_page 1
       (Some MoreSamples.text_file) MoreSamples.two_references
     = Some {| ReferenceListView.processingIds := [Some (lit "REF-002"); None];
               ReferenceListView.alerts := [];
               ReferenceListView.onUpdate := Some st' |}
     /\ map Types.text (ReferenceList.contents st') = [[]; lit "An essay."])
  /\ ReferenceListView.handleFileUpload Samples.pdfjs_one_page 1
       (Some MoreSamples.unreadable_file) MoreSamples.two_references
     = Some {| ReferenceListView.processingIds := [Some (lit "REF-002"); None];
               ReferenceListView.alerts :=
                 [lit "Failed to read file. Please check if it is a valid PDF or Text file."];
               ReferenceListView.onUpdate := None |}.
Proof.
  split.
  - destruct (reference_upload Samples.pdfjs_one_page MoreSamples.two_references
                1 (ReferenceList.newRef 1) MoreSamples.text_file)
      as (H & _).
    + apply addReference_wf, addReference_wf, empty_wf.
    + vm_compute. reflexivity.
    + destruct (H (lit "An essay.") eq_refl) as (st' & Hrun & Hc).
      exists st'. split; [exact Hrun|]. rewrite Hc. vm_compute. reflexivity.
  - destruct (reference_upload Samples.pdfjs_one_page MoreSamples.two_references
                1 (ReferenceList.newRef 1) MoreSamples.unreadable_file)
      as (_ & H & _).
    + apply addReference_wf, addReference_wf, empty_wf.
    + vm_compute. reflexivity.
    + apply (H (GeminiService.Error [])). reflexivity.
Defined.



(** * More on the state controller *)

Section ControllerOutcome.

Import GeminiService App.


Lemma handleAnalyze_cases (host : Host) (st : AppState) :
  (exists msg, msg <> [] /\ handleAnalyze host st = ([], setError (Some msg) st))
  \/ (preconditions st
      /\ exists tr outcome,
           analyzePlagiarism host (documentText st) (references st)
             (documentType st) (useWebSearch st) = (tr, outcome)
           /\ handleAnalyze host st =
              (tr, setIsAnalyzing false
                     (match outcome with
                      | Ok data =>
                          setResult (resultOf data)
                            (setResult None (setError None (setIsAnalyzing true st)))
                      | Throw err =>
                          setError (Some (errorMessage err))
                            (setResult None (setError None (setIsAnalyzing true st)))
                      end))).
Proof.
  destruct (truthy (trim (documentText st))
            && (hasReferences st || useWebSearch st)) eqn:E.
  - right. apply andb_true_iff in E. apply preconditions_dec in E.
    split; [exact E|].
    destruct (handleAnalyze_invokes host st E) as [H1 H2].
    destruct (analyzePlagiarism host (documentText st) (references st)
                (documentType st) (useWebSearch st)) as [tr outcome] eqn:Ha.
    exists tr, outcome. split; [reflexivity|].
    destruct (handleAnalyze host st) as [tr' st']. cbn [fst snd] in *.
    subst. reflexivity.
  - left. apply handleAnalyze_rejects. rewrite preconditions_dec.
    intros H. apply andb_true_iff in H. congruence.
Qed.

End ControllerOutcome.

(** X9.  The analyze action never touches the inputs: the document text,
    the document type, the references, the web search flag and the file
    processing flag are the same afterwards, whatever the host does; a
    rejected request leaves an earlier result and the analyzing flag alone
    as well. *)
Theorem analyze_keeps_inputs (host : GeminiService.Host) (st : App.AppState) :
  App.documentText (snd (App.handleAnalyze host st)) = App.documentText st
  /\ App.documentType (snd (App.handleAnalyze host st)) = App.documentType st
  /\ App.references (snd (App.handleAnalyze host st)) = App.references st
  /\ App.useWebSearch (snd (App.handleAnalyze host st)) = App.useWebSearch st
  /\ App.isProcessingFile (snd (App.handleAnalyze host st))
     = App.isProcessingFile st
  /\ (~ App.preconditions st ->
      App.result (snd (App.handleAnalyze host st)) = App.result st
      /\ App.isAnalyzing (snd (App.handleAnalyze host st)) = App.isAnalyzing st).
Proof.
  destruct (handleAnalyze_cases host st)
    as [(msg & _ & E)|(Hpre & tr & outcome & _ & E)]; rewrite E; cbn [snd].
  - do 5 (split; [reflexivity|]). intros _. split; reflexivity.
  - destruct outcome; do 5 (split; [reflexivity|]); intros Hno; contradiction.
Qed.

(** A rejected request on a state that shows an earlier result. *)
Lemma analyze_keeps_inputs_witness :
  App.result
    (snd (App.handleAnalyze
            (Samples.host_of None (Samples.grounded Samples.reply_fenced []))
            (App.setResult
               (Some {| GeminiService.parsed := Samples.reply_value;
                        GeminiService.result_webSources := None |})
               Samples.blank_document)))
  = Some {| GeminiService.parsed := Samples.reply_value;
            GeminiService.result_webSources := None |}.
Proof.
  destruct (analyze_keeps_inputs
              (Samples.host_of None (Samples.grounded Samples.reply_fenced []))
              (App.setResult
                 (Some {| GeminiService.parsed := Samples.reply_value;
                          GeminiService.result_webSources := None |})
                 Samples.blank_document)) as (_ & _ & _ & _ & _ & H).
  destruct H as [H _]; [|exact H].
  intros [Hdoc _]. apply Hdoc. vm_compute. reflexivity.
Defined.



(** X11.  When the model call itself fails, the analyze action shows the
    message of that failure, or the fixed text for an unexpected error when
    the failure has no message; the one call made is not repeated. *)
Theorem analyze_model_failure (host : GeminiService.Host) (st : App.AppState)
    (k : jstr) (e : GeminiService.exn) :
  App.preconditions st ->
  GeminiService.API_KEY host = Some k -> k <> [] ->
  (forall request, GeminiService.generateContent host request
                   = GeminiService.Throw e) ->
  length (GeminiService.modelCalls (fst (App.handleAnalyze host st))) = 1
  /\ App.result (snd (App.handleAnalyze host st)) = None
  /\ (GeminiService.message e <> [] ->
      App.error (snd (App.handleAnalyze host st))
      = Some (GeminiService.message e))
  /\ (GeminiService.message e = [] ->
      App.error (snd (App.handleAnalyze host st))
      = Some (lit "An unexpected error occurred during analysis.")).
Proof.
  intros Hpre Hk Hne Hfail.
  destruct (handleAnalyze_invokes host st Hpre) as [-> ->].
  rewrite (analyzePlagiarism_key host k) by assumption. cbn [fst snd].
  rewrite Hfail. cbn [GeminiService.bindR].
  split; [reflexivity|]. split; [reflexivity|].
  unfold App.errorMessage. split.
  - intros Hm. destruct (GeminiService.message e); [congruence|reflexivity].
  - intros ->. reflexivity.
Qed.

(** A model that refuses with a message, and one that refuses without. *)
Lemma analyze_model_failure_witness :
  App.error
    (snd (App.handleAnalyze (MoreSamples.failing_host (lit "quota exceeded"))
            Samples.web_only))
  = Some (lit "quota exceeded")
  /\ App.error
       (snd (App.handleAnalyze (MoreSamples.failing_host []) Samples.web_only))
     = Some (lit "An unexpected error occurred during analysis.").
Proof.
  assert (Hpre : App.preconditions Samples.web_only)
    by (split; [vm_compute; discriminate|right; reflexivity]).
  split.
  - destruct (analyze_model_failure (MoreSamples.failing_host (lit "quota exceeded"))
                Samples.web_only (lit "key")
                (GeminiService.Error (lit "quota exceeded")) Hpre)
      as (_ & _ & H & _); [reflexivity|discriminate|reflexivity|].
    apply H. discriminate.
  - destruct (analyze_model_failure (MoreSamples.failing_host [])
                Samples.web_only (lit "key") (GeminiService.Error []) Hpre)
      as (_ & _ & _ & H); [reflexivity|discriminate|reflexivity|].
    apply H. reflexivity.
Defined.

(** X12.  Reset wipes whatever an analysis left: resetting after the analyze
    action gives the same state as resetting before it, for every host and
    every outcome, provided no analysis was marked as running. *)
Theorem reset_after_analyze (host : GeminiService.Host) (st : App.AppState) :
  App.isAnalyzing st = false ->
  App.handleReset (snd (App.handleAnalyze host st)) = App.handleReset st
  /\ App.result (App.handleReset (snd (App.handleAnalyze host st))) = None
  /\ App.error (App.handleReset (snd (App.handleAnalyze host st))) = None.
Proof.
  intros Hrun.
  assert (E : App.handleReset (snd (App.handleAnalyze host st)) = App.handleReset st).
  { destruct (handleAnalyze_cases host st)
      as [(msg & _ & E)|(Hpre & tr & outcome & _ & E)]; rewrite E; cbn [snd].
    - reflexivity.
    - unfold App.handleReset.
      destruct outcome; destruct st; cbn in *; subst; reflexivity. }
  rewrite E. repeat split.
Qed.

(** Back to the input after a failed analysis. *)
Lemma reset_after_analyze_witness :
  App.handleReset
    (snd (App.handleAnalyze (MoreSamples.failing_host (lit "quota exceeded"))
            Samples.web_only))
  = Samples.web_only.
Proof.
  destruct (reset_after_analyze (MoreSamples.failing_host (lit "quota exceeded"))
              Samples.web_only) as [H _]; [reflexivity|].
  rewrite H. reflexivity.
Defined.

(** * The document upload *)

Section DocumentUpload.

Import GeminiService App AppFiles.

Lemma readErrorMessage_nonempty (e : exn) : readErrorMessage e <> [].
Proof.
  unfold readErrorMessage. destruct (message e); cbn [truthy]; discriminate.
Qed.


Lemma extract_outcome (pdfjs : PdfUtils.Pdfjs) (file : PdfUtils.File) :
  (exists text, PdfUtils.extractTextFromPdf pdfjs file = Ok text)
  \/ PdfUtils.extractTextFromPdf pdfjs file = Throw PdfUtils.extractionFailure.
Proof.
  unfold PdfUtils.extractTextFromPdf.
  destruct (bindR (PdfUtils.arrayBuffer file) _) as [t|e]; eauto.
Qed.

End DocumentUpload.

(** X13.  The document upload always ends with the processing flag off and
    leaves the type, the references, the result and the flags of the
    analysis alone.  A file that can be read replaces the document text and
    clears the error; one that cannot keeps the text and shows a non-empty
    message.  A file declared as PDF goes through the PDF extraction, and
    when that fails the message is always the one asking for a text-based
    PDF, whatever went wrong; any other file is read as text and the PDF
    library plays no part.  Without a file nothing changes. *)
Theorem document_upload (pdfjs : PdfUtils.Pdfjs) (file : Files.FileHandle)
    (st : App.AppState) :
  AppFiles.handleFileUpload pdfjs None st = st
  /\ App.isProcessingFile (AppFiles.handleFileUpload pdfjs (Some file) st) = false
  /\ (App.documentType (AppFiles.handleFileUpload pdfjs (Some file) st)
      = App.documentType st
      /\ App.references (AppFiles.handleFileUpload pdfjs (Some file) st)
         = App.references st
      /\ App.result (AppFiles.handleFileUpload pdfjs (Some file) st)
         = App.result st
      /\ App.isAnalyzing (AppFiles.handleFileUpload pdfjs (Some file) st)
         = App.isAnalyzing st
      /\ App.useWebSearch (AppFiles.handleFileUpload pdfjs (Some file) st)
         = App.useWebSearch st)
  /\ (forall text, Files.readFile pdfjs file = GeminiService.Ok text ->
        App.documentText (AppFiles.handleFileUpload pdfjs (Some file) st) = text
        /\ App.error (AppFiles.handleFileUpload pdfjs (Some file) st) = None)
  /\ (forall e, Files.readFile pdfjs file = GeminiService.Throw e ->
        App.documentText (AppFiles.handleFileUpload pdfjs (Some file) st)
        = App.documentText st
        /\ exists msg, msg <> []
             /\ App.error (AppFiles.handleFileUpload pdfjs (Some file) st)
                = Some msg)
  /\ (Files.type file = lit "application/pdf" ->
      (exists text, Files.readFile pdfjs file = GeminiService.Ok text)
      \/ App.error (AppFiles.handleFileUpload pdfjs (Some file) st)
         = Some (lit "Failed to extract text from PDF. Please ensure it is a valid text-based PDF."))
  /\ (Files.type file <> lit "application/pdf" ->
      Files.readFile pdfjs file = Files.text file).
Proof.
  split; [reflexivity|]. unfold AppFiles.handleFileUpload.
  split; [destruct (Files.readFile pdfjs file); reflexivity|].
  split; [destruct (Files.readFile pdfjs file); repeat split|].
  split; [intros text ->; split; reflexivity|].
  split.
  { intros e ->. split; [reflexivity|].
    exists (AppFiles.readErrorMessage e).
    split; [apply readErrorMessage_nonempty|reflexivity]. }
  split.
  - intros Htype. unfold Files.readFile. rewrite decide_True by exact Htype.
    destruct (extract_outcome pdfjs (Files.bytes file)) as [[text ->]| ->].
    + left. eauto.
    + right. reflexivity.
  - intros Htype. unfold Files.readFile. rewrite decide_False by exact Htype.
    reflexivity.
Qed.

(** A text file, and a PDF the library cannot open. *)
Lemma document_upload_witness :
  App.documentText
    (AppFiles.handleFileUpload Samples.pdfjs_rejecting
       (Some MoreSamples.text_file) App.initial) = lit "An essay."
  /\ App.error
       (AppFiles.handleFileUpload Samples.pdfjs_rejecting
          (Some MoreSamples.pdf_file) App.initial)
     = Some (lit "Failed to extract text from PDF. Please ensure it is a valid text-based PDF.").
Proof.
  split.
  - destruct (document_upload Samples.pdfjs_rejecting MoreSamples.text_file
                App.initial) as (_ & _ & _ & H & _).
    apply (H (lit "An essay.")). reflexivity.
  - destruct (document_upload Samples.pdfjs_rejecting MoreSamples.pdf_file
                App.initial) as (_ & _ & _ & _ & _ & H & _).
    destruct (H eq_refl) as [[text Ht]|Herr]; [discriminate Ht|exact Herr].
Defined.



(** * More on the analysis client *)

(** X15.  One invocation of the client makes at most one model call (there
    is no retry), and makes exactly one when a credential is configured.
    The request names the model gemini-3-pro-preview, carries the document
    text and type unchanged and the references section, and has either the
    search tool (web search on) or the JSON response type (web search off),
    never both. *)
Theorem single_model_call (host : GeminiService.Host) (documentText : jstr)
    (references : list Types.ReferenceItem) (documentType : jstr) (web : bool) :
  length (GeminiService.modelCalls
            (fst (GeminiService.analyzePlagiarism host documentText references
                    documentType web))) <= 1
  /\ (forall k, GeminiService.API_KEY host = Some k -> k <> [] ->
        length (GeminiService.modelCalls
                  (fst (GeminiService.analyzePlagiarism host documentText
                          references documentType web))) = 1)
  /\ (forall request,
        In request
          (GeminiService.modelCalls
             (fst (GeminiService.analyzePlagiarism host documentText references
                     documentType web))) ->
        GeminiService.model request = lit "gemini-3-pro-preview"
        /\ GeminiService.p_documentText (GeminiService.contents request)
           = documentText
        /\ GeminiService.p_documentType (GeminiService.contents request)
           = documentType
        /\ GeminiService.p_references (GeminiService.contents request)
           = GeminiService.referencesSection references
        /\ (web = true ->
            GeminiService.tools (GeminiService.config request)
            = Some [GeminiService.googleSearch]
            /\ GeminiService.responseMimeType (GeminiService.config request) = None)
        /\ (web = false ->
            GeminiService.tools (GeminiService.config request) = None
            /\ GeminiService.responseMimeType (GeminiService.config request)
               = Some (lit "application/json"))).
Proof.
  destruct (GeminiService.API_KEY host) as [k|] eqn:Hk.
  - destruct k as [|c k].
    + rewrite analyzePlagiarism_no_key by (right; exact Hk). cbn.
      split; [lia|]. split; [intros k' E; congruence|]. intros request [].
    + rewrite (analyzePlagiarism_key host (c :: k)) by (exact Hk || discriminate).
      cbn [fst]. split; [cbn; lia|]. split; [reflexivity|].
      intros request [<-|[]]. cbn.
      do 4 (split; [reflexivity|]).
      split; intros ->; split; reflexivity.
  - rewrite analyzePlagiarism_no_key by (left; exact Hk). cbn.
    split; [lia|]. split; [intros k' E; congruence|]. intros request [].
Qed.

(** A run with a credential and web search on. *)
Lemma single_model_call_witness :
  length (GeminiService.modelCalls
            (fst (GeminiService.analyzePlagiarism
                    (Samples.host_of (Some (lit "key"))
                       (Samples.grounded Samples.reply_fenced []))
                    (lit "Some essay.") [] (lit "Research Paper") true))) = 1.
Proof.
  destruct (single_model_call
              (Samples.host_of (Some (lit "key"))
                 (Samples.grounded Samples.reply_fenced []))
              (lit "Some essay.") [] (lit "Research Paper") true) as (_ & H & _).
  apply (H (lit "key")); [reflexivity|discriminate].
Defined.

(** X16.  What the client makes of a response.  Without a reply text, or
    with an empty one, it fails with the no-response error, sources or not.
    With a text that does not parse after cleaning it fails with the parse
    error.  Whenever it returns a result, that result is the parse of the
    cleaned reply text.  The client assigns the webSources property only if
    web search was on and the response had grounding chunks, and the property
    then is the deduplicated sources of those chunks, whatever the reply
    held.  Otherwise the result is the parsed reply as it is: its webSources
    property is the member of that name the reply itself has, which can be
    there with web search off, or is absent. *)
Theorem reply_outcomes (host : GeminiService.Host) (web : bool)
    (response : GeminiService.GenerateContentResponse) :
  (GeminiService.text response = None \/ GeminiService.text response = Some [] ->
   GeminiService.readReply host web response
   = GeminiService.Throw (GeminiService.Error (lit "No response generated from AI")))
  /\ (forall raw,
        GeminiService.text response = Some raw -> raw <> [] ->
        JSON.parse (GeminiService.jsonText raw) = None ->
        GeminiService.readReply host web response
        = GeminiService.Throw (GeminiService.Error (lit
            "Failed to parse analysis results. The AI response was not valid JSON.")))
  /\ (forall res,
        GeminiService.readReply host web response = GeminiService.Ok res ->
        exists raw,
          GeminiService.text response = Some raw /\ raw <> []
          /\ JSON.parse (GeminiService.jsonText raw)
             = Some (GeminiService.parsed res)
          /\ ((exists chunks,
                 web = true
                 /\ GeminiService.groundingChunksOf response = Some chunks
                 /\ ResultObject.webSources res
                    = ResultObject.Assigned
                        (GeminiService.uniqueSources
                           (GeminiService.webSources chunks)))
              \/ ((web = false
                   \/ GeminiService.groundingChunksOf response = None)
                  /\ GeminiService.result_webSources res = None
                  /\ ResultObject.webSources res
                     = match ResultObject.ownMember (lit "webSources")
                               (GeminiService.parsed res) with
                       | Some v => ResultObject.Own v
                       | None => ResultObject.Absent
                       end)))
  /\ (forall raw members v,
        GeminiService.text response = Some raw -> raw <> [] ->
        JSON.parse (GeminiService.jsonText raw) = Some (JSON.Object members) ->
        ResultObject.ownMember (lit "webSources") (JSON.Object members) = Some v ->
        (web = false \/ GeminiService.groundingChunksOf response = None ->
         exists res,
           GeminiService.readReply host web response = GeminiService.Ok res
           /\ GeminiService.parsed res = JSON.Object members
           /\ ResultObject.webSources res = ResultObject.Own v)
        /\ (forall chunks,
              web = true ->
              GeminiService.groundingChunksOf response = Some chunks ->
              exists res,
                GeminiService.readReply host web response = GeminiService.Ok res
                /\ ResultObject.webSources res
                   = ResultObject.Assigned
                       (GeminiService.uniqueSources
                          (GeminiService.webSources chunks)))).
Proof.
  unfold GeminiService.readReply. split; [intros [-> | ->]; reflexivity|].
  split.
  { intros raw -> Hne Hparse. destruct raw; [congruence|].
    cbn [truthy GeminiService.bindR]. unfold GeminiService.parseReply.
    rewrite Hparse. reflexivity. }
  split.
  { intros res. destruct (GeminiService.text response) as [raw|]; [|discriminate].
    destruct raw as [|c raw]; [discriminate|].
    cbn [truthy GeminiService.bindR]. unfold GeminiService.parseReply.
    destruct (JSON.parse (GeminiService.jsonText (c :: raw))) as [v|] eqn:Hp;
      [|discriminate].
    cbn [GeminiService.bindR]. intros H. exists (c :: raw).
    split; [reflexivity|]. split; [discriminate|]. rewrite Hp.
    destruct web.
    - destruct (GeminiService.groundingChunksOf response) as [chunks|].
      + unfold GeminiService.assignWebSources in H.
        destruct v; try discriminate H; injection H as <-;
          (split; [reflexivity|]); left; exists chunks; repeat split.
      + injection H as <-. split; [reflexivity|]. right.
        split; [right; reflexivity|]. split; reflexivity.
    - injection H as <-. split; [reflexivity|]. right.
      split; [left; reflexivity|]. split; reflexivity. }
  intros raw members v -> Hne Hparse Hown.
  destruct raw as [|c raw]; [congruence|].
  cbn [truthy GeminiService.bindR]. unfold GeminiService.parseReply.
  rewrite Hparse. cbn [GeminiService.bindR]. split.
  - intros Hcase.
    assert (E : (if web then GeminiService.groundingChunksOf response else None)
                = None).
    { destruct Hcase as [-> | ->]; [reflexivity|destruct web; reflexivity]. }
    rewrite E. eexists. split; [reflexivity|]. split; [reflexivity|].
    unfold ResultObject.webSources. cbn [GeminiService.result_webSources
      GeminiService.parsed]. rewrite Hown. reflexivity.
  - intros chunks -> ->. eexists. split; reflexivity.
Qed.

(** A response without text, and a reply with a webSources member of its
    own, read with web search off. *)
Lemma reply_outcomes_witness :
  GeminiService.readReply
    (Samples.host_of (Some (lit "key")) (Samples.grounded [] Samples.chunks_example))
    true (Samples.grounded [] Samples.chunks_example)
  = GeminiService.Throw (GeminiService.Error (lit "No response generated from AI"))
  /\ exists res,
       GeminiService.readReply
         (Samples.host_of (Some (lit "key"))
            (MoreSamples.ungrounded MoreSamples.reply_with_sources))
         false (MoreSamples.ungrounded MoreSamples.reply_with_sources)
       = GeminiService.Ok res
       /\ ResultObject.webSources res = ResultObject.Own MoreSamples.own_sources.
Proof.
  split.
  - destruct (reply_outcomes
                (Samples.host_of (Some (lit "key"))
                   (Samples.grounded [] Samples.chunks_example))
                true (Samples.grounded [] Samples.chunks_example)) as (H & _).
    apply H. right. reflexivity.
  - destruct (reply_outcomes
                (Samples.host_of (Some (lit "key"))
                   (MoreSamples.ungrounded MoreSamples.reply_with_sources))
                false (MoreSamples.ungrounded MoreSamples.reply_with_sources))
      as (_ & _ & _ & H).
    destruct (H MoreSamples.reply_with_sources
                [ (JSON.str (lit "summary"), JSON.Array []);
                  (JSON.str (lit "webSources"), MoreSamples.own_sources) ]
                MoreSamples.own_sources) as [Hoff _].
    + reflexivity.
    + discriminate.
    + vm_compute. reflexivity.
    + vm_compute. reflexivity.
    + destruct Hoff as (res & Hres & _ & Hws); [left; reflexivity|].
      exists res. split; assumption.
Defined.

(** X17.  With web search on and grounding chunks present, a reply that is
    valid JSON but not an object or array (a number, a string, true, false,
    null) makes the client fail with a type error when it attaches the
    sources, although the same reply is returned as the result when web
    search is off. *)
Theorem primitive_reply (host : GeminiService.Host)
    (response : GeminiService.GenerateContentResponse) (raw : jstr)
    (v : JSON.value) (chunks : list GeminiService.GroundingChunk) :
  GeminiService.text response = Some raw -> raw <> [] ->
  JSON.parse (GeminiService.jsonText raw) = Some v ->
  (forall items, v <> JSON.Array items) ->
  (forall members, v <> JSON.Object members) ->
  GeminiService.groundingChunksOf response = Some chunks ->
  GeminiService.readReply host true response
  = GeminiService.Throw
      (GeminiService.TypeError (GeminiService.typeErrorMessage host))
  /\ GeminiService.readReply host false response
     = GeminiService.Ok {| GeminiService.parsed := v;
                           GeminiService.result_webSources := None |}.
Proof.
  intros Htext Hne Hparse Harr Hobj Hchunks.
  unfold GeminiService.readReply. rewrite Htext.
  destruct raw as [|c raw]; [congruence|].
  cbn [truthy GeminiService.bindR]. unfold GeminiService.parseReply.
  rewrite Hparse. cbn [GeminiService.bindR]. rewrite Hchunks.
  split; [|reflexivity].
  destruct v; try reflexivity.
  - exfalso. eapply Harr. reflexivity.
  - exfalso. eapply Hobj. reflexivity.
Qed.

(** The reply 42 with the example chunks. *)
Lemma primitive_reply_witness :
  GeminiService.readReply
    (Samples.host_of (Some (lit "key"))
       (Samples.grounded (lit "42") Samples.chunks_example))
    true (Samples.grounded (lit "42") Samples.chunks_example)
  = GeminiService.Throw (GeminiService.TypeError (lit "Cannot create property"))
  /\ GeminiService.readReply
       (Samples.host_of (Some (lit "key"))
          (Samples.grounded (lit "42") Samples.chunks_example))
       false (Samples.grounded (lit "42") Samples.chunks_example)
     = GeminiService.Ok {| GeminiService.parsed := JSON.Number (lit "42");
                           GeminiService.result_webSources := None |}.
Proof.
  apply (primitive_reply
           (Samples.host_of (Some (lit "key"))
              (Samples.grounded (lit "42") Samples.chunks_example))
           (Samples.grounded (lit "42") Samples.chunks_example)
           (lit "42") (JSON.Number (lit "42")) Samples.chunks_example).
  - reflexivity.
  - discriminate.
  - vm_compute. reflexivity.
  - discriminate.
  - discriminate.
  - reflexivity.
Defined.

(** * More on the web sources *)

Section Dedup.

Import GeminiService.

Lemma set_fresh {V} (k : jstr) (v : V) (m : list (jstr * V)) :
  k ∉ map fst m -> JSMap.set k v m = m ++ [(k, v)].
Proof.
  induction m as [|[k' v'] m IH]; intros Hk; [reflexivity|].
  cbn [JSMap.set]. cbn [map fst] in Hk. apply not_elem_of_cons in Hk as [Hne Hk].
  rewrite decide_False by congruence. rewrite IH by exact Hk. reflexivity.
Qed.

Lemma fold_distinct {V} (es m : list (jstr * V)) :
  NoDup (map fst (m ++ es)) ->
  fold_left (fun m e => JSMap.set (fst e) (snd e) m) es m = m ++ es.
Proof.
  revert m. induction es as [|[k v] es IH]; intros m Hnd.
  - cbn. rewrite app_nil_r. reflexivity.
  - cbn [fold_left fst snd]. rewrite set_fresh.
    + rewrite IH; rewrite <- app_assoc; [reflexivity|exact Hnd].
    + rewrite map_app in Hnd. cbn [map fst] in Hnd.
      apply NoDup_app in Hnd as (_ & Hdisj & _).
      intros Hin. apply (Hdisj k Hin). left.
Qed.

Lemma uniqueSources_distinct (ws : list Types.WebSource) :
  NoDup (map Types.uri ws) -> uniqueSources ws = ws.
Proof.
  intros Hnd. unfold uniqueSources, JSMap.values, JSMap.of_entries.
  rewrite fold_distinct.
  - cbn [app]. rewrite map_map. apply map_id.
  - cbn [app]. rewrite map_map. exact Hnd.
Qed.

Lemma nub_length (l : list jstr) : length (JSMap.nub l) <= length l.
Proof.
  induction l as [|k l IH]; [reflexivity|]. cbn [JSMap.nub length].
  pose proof (length_filter (fun x => x <> k) (JSMap.nub l)). lia.
Qed.

Lemma uniqueSources_subset (ws : list Types.WebSource) (s : Types.WebSource) :
  s ∈ uniqueSources ws -> s ∈ ws.
Proof.
  intros H. apply uniqueSources_last in H.
  apply last_Some in H as [l' H].
  assert (Hin : s ∈ filter (fun x => Types.uri x = Types.uri s) ws)
    by (rewrite H; apply elem_of_app; right; left).
  apply list_elem_of_filter in Hin as [_ Hin]. exact Hin.
Qed.

End Dedup.

(** X18.  Deduplicating is idempotent and never lengthens the list; a list
    whose URIs are already distinct comes back unchanged, in the same
    order. *)
Theorem dedup_stable (sources : list Types.WebSource) :
  GeminiService.uniqueSources (GeminiService.uniqueSources sources)
  = GeminiService.uniqueSources sources
  /\ length (GeminiService.uniqueSources sources) <= length sources
  /\ (NoDup (map Types.uri sources) ->
      GeminiService.uniqueSources sources = sources).
Proof.
  split; [|split].
  - apply uniqueSources_distinct. rewrite uniqueSources_uris. apply NoDup_nub.
  - rewrite <- (length_map Types.uri (GeminiService.uniqueSources sources)).
    rewrite uniqueSources_uris.
    etransitivity; [apply nub_length|]. rewrite length_map. reflexivity.
  - apply uniqueSources_distinct.
Qed.

(** Two sources with different URIs. *)
Lemma dedup_stable_witness :
  GeminiService.uniqueSources
    [Samples.source_a_A; {| Types.uri := lit "b"; Types.title := lit "A" |}]
  = [Samples.source_a_A; {| Types.uri := lit "b"; Types.title := lit "A" |}].
Proof.
  destruct (dedup_stable
              [Samples.source_a_A;
               {| Types.uri := lit "b"; Types.title := lit "A" |}])
    as (_ & _ & H).
  apply H. apply NoDup_ListNoDup. vm_compute.
  constructor; [intros [E|[]]; discriminate E|].
  constructor; [intros []|constructor].
Defined.

(** X19.  Every web source the client attaches comes from a chunk of the
    response and has a non-empty URI and a non-empty title, and there are
    never more sources than chunks. *)
Theorem web_sources_wellformed (chunks : list GeminiService.GroundingChunk) :
  length (GeminiService.uniqueSources (GeminiService.webSources chunks))
  <= length chunks
  /\ forall s,
       s ∈ GeminiService.uniqueSources (GeminiService.webSources chunks) ->
       Types.uri s <> [] /\ Types.title s <> []
       /\ exists c w, c ∈ chunks /\ GeminiService.web c = Some w
                      /\ GeminiService.uri w = Some (Types.uri s).
Proof.
  split.
  { etransitivity.
    - rewrite <- (length_map Types.uri), uniqueSources_uris. apply nub_length.
    - rewrite length_map. unfold GeminiService.webSources.
      induction chunks as [|c chunks IH]; [reflexivity|].
      change (omap GeminiService.webSourceOf (c :: chunks))
        with (match GeminiService.webSourceOf c with
              | Some y => y :: omap GeminiService.webSourceOf chunks
              | None => omap GeminiService.webSourceOf chunks
              end).
      destruct (GeminiService.webSourceOf c); cbn [length]; lia. }
  intros s Hin. apply uniqueSources_subset in Hin.
  unfold GeminiService.webSources in Hin.
  apply list_elem_of_omap in Hin as (c & Hc & Hs).
  unfold GeminiService.webSourceOf in Hs.
  destruct (GeminiService.web c) as [w|] eqn:Hw; [|discriminate].
  destruct (GeminiService.uri w) as [u|] eqn:Hu; [|discriminate].
  destruct u as [|x u]; [discriminate|]. cbn [truthy] in Hs.
  injection Hs as <-. cbn [Types.uri Types.title].
  split; [discriminate|]. split.
  { destruct (GeminiService.title w) as [[|y t]|]; cbn [truthy]; discriminate. }
  exists c, w. repeat split; assumption.
Qed.

(** The source kept for the chunks of the example. *)
Lemma web_sources_wellformed_witness :
  Types.uri Samples.source_a_A2 <> [] /\ Types.title Samples.source_a_A2 <> [].
Proof.
  destruct (web_sources_wellformed Samples.chunks_example) as [_ H].
  destruct (H Samples.source_a_A2) as (H1 & H2 & _).
  - vm_compute. left.
  - split; assumption.
Defined.

(** * More on cleaning the reply *)

Section CleanupStable.

Import GeminiService.

Lemma scan_shrinks (eqc : ascii -> ascii -> bool) (pat s : jstr) (k : nat) :
  length (flat_map (render []) (scan eqc pat k s)) <= length s.
Proof.
  revert k. induction s as [|c s IH]; intros k; [reflexivity|].
  destruct k as [|k]; cbn [scan].
  - destruct (starts_with eqc pat (c :: s)); cbn [flat_map render app length].
    + etransitivity; [apply IH|lia].
    + specialize (IH 0). lia.
  - cbn [length]. etransitivity; [apply IH|lia].
Qed.

Lemma occurs_drop (eqc : ascii -> ascii -> bool) (pat s : jstr) (n : nat) :
  occurs eqc pat s = false -> occurs eqc pat (skipn n s) = false.
Proof.
  revert s. induction n as [|n IH]; intros s H; [exact H|].
  destruct s as [|c s]; [exact H|]. cbn [skipn]. apply IH.
  eapply occurs_tail, H.
Qed.

Lemma occurs_take (eqc : ascii -> ascii -> bool) (pat s : jstr) (n : nat) :
  occurs eqc pat s = false -> occurs eqc pat (firstn n s) = false.
Proof.
  intros H. rewrite <- (firstn_skipn n s) in H. eapply occurs_app_l, H.
Qed.

(** The slice from a [{] at [i] to a [}] at [j]. *)
Lemma slice_braces (t : jstr) (i j : nat) :
  t !! i = Some "{"%char -> t !! j = Some "}"%char -> i < j ->
  exists mid,
    firstn (j + 1 - i) (skipn i t) = "{"%char :: mid ++ ["}"%char].
Proof.
  intros Hi Hj Hlt.
  exists (firstn (j - i - 1) (skipn (S i) t)).
  rewrite (drop_S _ _ _ Hi).
  replace (j + 1 - i) with (S (S (j - i - 1))) by lia.
  cbn [firstn]. f_equal.
  apply take_S_r. rewrite lookup_drop.
  replace (S i + (j - i - 1)) with j by lia. exact Hj.
Qed.

Lemma jsonText_clean_whole (t : jstr) :
  includes FENCE t = false -> ~ brace_pair t -> jsonText t = t.
Proof.
  intros Hclean Hno. rewrite jsonText_whole; rewrite (stripFences_clean t Hclean);
    [reflexivity|exact Hno].
Qed.

Lemma brace_pair_dec (t : jstr) : brace_pair t \/ ~ brace_pair t.
Proof.
  destruct (Z.eq_dec (indexOf "{"%char t) (-1)%Z) as [Eo|Ho].
  { right. intros (i & j & _ & Hi & _).
    apply indexOf_absent in Eo. apply Eo. eapply lookup_In, Hi. }
  destruct (Z.eq_dec (lastIndexOf "}"%char t) (-1)%Z) as [Ec|Hc].
  { right. intros (i & j & _ & _ & Hj).
    apply lastIndexOf_absent in Ec. apply Ec. eapply lookup_In, Hj. }
  destruct (indexOf_first_at _ _ Ho) as (i & _ & Hi & Hbefore).
  destruct (lastIndexOf_last_at _ _ Hc) as (j & _ & Hj & Hafter).
  destruct (Nat.lt_ge_cases i j) as [Hlt|Hge].
  - left. exists i, j. repeat split; assumption.
  - right. intros (i0 & j0 & Hlt & Hi0 & Hj0).
    assert (Hlo : i <= i0).
    { destruct (Nat.le_gt_cases i i0) as [H|H]; [exact H|].
      exfalso. exact (Hbefore _ H Hi0). }
    assert (Hhi : j0 <= j).
    { destruct (Nat.le_gt_cases j0 j) as [H|H]; [exact H|].
      exfalso. exact (Hafter _ H Hj0). }
    lia.
Qed.

End CleanupStable.

(** X20.  Removing the fences only deletes characters, is idempotent, and
    leaves a text unchanged exactly when the text has no fence. *)
Theorem strip_fences_stable (text : jstr) :
  length (GeminiService.stripFences text) <= length text
  /\ (forall c, In c (GeminiService.stripFences text) -> In c text)
  /\ GeminiService.stripFences (GeminiService.stripFences text)
     = GeminiService.stripFences text
  /\ (GeminiService.stripFences text = text
      <-> includes GeminiService.FENCE text = false).
Proof.
  split.
  { unfold GeminiService.stripFences, replace_g, replace_gi.
    etransitivity; apply scan_shrinks. }
  split; [intros c; apply stripFences_deletes|].
  split; [apply stripFences_clean, replace_fence_no_fence|].
  split.
  - intros E. rewrite <- E. apply replace_fence_no_fence.
  - apply stripFences_clean.
Qed.

(** X21.  The text handed to the parser is never longer than the reply;
    when the cleaned reply has a brace pair it starts with the opening and
    ends with the closing brace; and cleaning is idempotent: cleaning the
    cleaned text again gives the same text. *)
Theorem json_text_stable (raw : jstr) :
  length (GeminiService.jsonText raw) <= length raw
  /\ (GeminiService.brace_pair (GeminiService.stripFences raw) ->
      exists mid, GeminiService.jsonText raw = "{"%char :: mid ++ ["}"%char])
  /\ GeminiService.jsonText (GeminiService.jsonText raw)
     = GeminiService.jsonText raw.
Proof.
  assert (Hlen : length (GeminiService.stripFences raw) <= length raw).
  { unfold GeminiService.stripFences, replace_g, replace_gi.
    etransitivity; apply scan_shrinks. }
  pose proof (replace_fence_no_fence
                (replace_gi GeminiService.FENCE_JSON [] raw)) as Hclean.
  fold (GeminiService.stripFences raw) in Hclean.
  assert (Hpair : GeminiService.brace_pair (GeminiService.stripFences raw) ->
            exists i j mid,
              GeminiService.jsonText raw
              = firstn (j + 1 - i) (skipn i (GeminiService.stripFences raw))
              /\ GeminiService.jsonText raw = "{"%char :: mid ++ ["}"%char]).
  { intros Hp. destruct (jsonText_slice raw Hp) as (i & j & [Hi _] & [Hj _] & Hlt & E).
    destruct (slice_braces _ i j Hi Hj Hlt) as [mid Hmid].
    exists i, j, mid. split; [exact E|]. rewrite E. exact Hmid. }
  destruct (brace_pair_dec (GeminiService.stripFences raw)) as [Hp|Hno].
  - destruct (Hpair Hp) as (i & j & mid & E & Eb).
    split; [rewrite E, length_take, length_drop; lia|].
    split; [intros _; exists mid; exact Eb|].
    assert (Hc : includes GeminiService.FENCE ("{"%char :: mid ++ ["}"%char]) = false).
    { rewrite <- Eb, E. apply occurs_take, occurs_drop, Hclean. }
    rewrite Eb.
    pose proof (jsonText_wrapped [] mid [] (fun H => H) (fun H => H) Hc) as Hw.
    cbn [app] in Hw. rewrite app_nil_r in Hw. exact Hw.
  - rewrite (jsonText_whole raw Hno).
    split; [exact Hlen|]. split; [intros Hp; contradiction|].
    apply jsonText_clean_whole; [exact Hclean|exact Hno].
Qed.

(** The fenced reply of the specification's example. *)
Lemma json_text_stable_witness :
  exists mid,
    GeminiService.jsonText Samples.reply_fenced = "{"%char :: mid ++ ["}"%char].
Proof.
  destruct (json_text_stable Samples.reply_fenced) as (_ & H & _).
  apply H. exists 7, 88.
  split; [lia|]. split; vm_compute; reflexivity.
Defined.

(** Two replies: one with fences, one without. *)
Lemma strip_fences_stable_witness :
  GeminiService.stripFences Samples.reply_object = Samples.reply_object
  /\ GeminiService.stripFences Samples.reply_fenced <> Samples.reply_fenced.
Proof.
  destruct (strip_fences_stable Samples.reply_object) as (_ & _ & _ & [_ H1]).
  destruct (strip_fences_stable Samples.reply_fenced) as (_ & _ & _ & [H2 _]).
  split.
  - apply H1. vm_compute. reflexivity.
  - intros E. apply H2 in E. vm_compute in E. discriminate E.
Defined.

(** * More on the prompt builder *)

Section PromptSection.

Import GeminiService.

Lemma formatReference_fields (r r' : Types.ReferenceItem) :
  Types.id r = Types.id r' -> Types.sourceType r = Types.sourceType r' ->
  Types.text r = Types.text r' ->
  formatReference r = formatReference r'.
Proof. intros E1 E2 E3. unfold formatReference. rewrite E1, E2, E3. reflexivity. Qed.

End PromptSection.

(** X22.  The references section is the placeholder for no local references
    exactly when the list is empty: a list whose texts are all blank still
    yields its blocks.  The section depends on the ids, source types and
    texts only, not on which rows are expanded. *)
Theorem references_section (references : list Types.ReferenceItem) :
  (GeminiService.referencesSection references
   = lit "(No local references provided)" <-> references = [])
  /\ (references <> [] ->
      GeminiService.referencesSection references
      = GeminiService.formattedReferences references)
  /\ (forall references',
        Forall2 (fun r r' => Types.id r = Types.id r'
                             /\ Types.sourceType r = Types.sourceType r'
                             /\ Types.text r = Types.text r')
          references references' ->
        GeminiService.referencesSection references
        = GeminiService.referencesSection references').
Proof.
  split; [|split].
  - rewrite referencesSection_cases. destruct references as [|r rest].
    + split; reflexivity.
    + split; [|discriminate]. unfold GeminiService.formattedReferences.
      cbn [map]. rewrite join_cons, formatReference_lines. discriminate.
  - intros Hne. rewrite referencesSection_cases.
    destruct references; [congruence|reflexivity].
  - intros references' HF. unfold GeminiService.referencesSection.
    replace (GeminiService.formattedReferences references')
      with (GeminiService.formattedReferences references); [reflexivity|].
    unfold GeminiService.formattedReferences. f_equal.
    induction HF as [|r r' l l' (E1 & E2 & E3) _ IH]; [reflexivity|].
    cbn [map]. rewrite IH, (formatReference_fields r r' E1 E2 E3). reflexivity.
Qed.

(** One reference with an empty text. *)
Lemma references_section_witness :
  GeminiService.referencesSection [ReferenceList.newRef 0]
  = GeminiService.formattedReferences [ReferenceList.newRef 0]
  /\ GeminiService.referencesSection [ReferenceList.newRef 0]
     <> lit "(No local references provided)".
Proof.
  destruct (references_section [ReferenceList.newRef 0]) as ([H1 _] & H2 & _).
  split; [apply H2; discriminate|].
  intros E. apply H1 in E. discriminate E.
Defined.

(** * More on the result view *)

(** X23.  The chart and the icon use coarser tiers than the text colour.
    The chart slice is red exactly when the text is red and orange exactly
    when the text is orange, but it is green both where the text is green
    and where it is yellow: a score from 20 to 49 shows yellow text, a green
    chart and the warning triangle.  The check mark is shown exactly below
    20 and the octagon exactly from 80 up.  The two slices of the chart
    always add up to 100, and both are between 0 and 100 exactly when the
    score is. *)
Theorem chart_tiers (score : Z) :
  (AnalysisViewChart.riskColorHex score = lit "#ef4444"
   <-> AnalysisView.getRiskColor score = lit "text-red-600")
  /\ (AnalysisViewChart.riskColorHex score = lit "#f97316"
      <-> AnalysisView.getRiskColor score = lit "text-orange-600")
  /\ (AnalysisViewChart.riskColorHex score = lit "#22c55e"
      <-> AnalysisView.getRiskColor score = lit "text-green-600"
          \/ AnalysisView.getRiskColor score = lit "text-yellow-600")
  /\ ((20 <= score < 50)%Z ->
      AnalysisView.getRiskColor score = lit "text-yellow-600"
      /\ AnalysisViewChart.riskColorHex score = lit "#22c55e"
      /\ AnalysisViewChart.riskIcon score = AnalysisViewChart.AlertTriangle)
  /\ (AnalysisViewChart.riskIcon score = AnalysisViewChart.CheckCircle
      <-> (score < 20)%Z)
  /\ (AnalysisViewChart.riskIcon score = AnalysisViewChart.AlertOctagon
      <-> (80 <= score)%Z)
  /\ (exists risk safe,
        AnalysisViewChart.riskData score = [(lit "Risk", risk); (lit "Safe", safe)]
        /\ risk = score /\ (risk + safe = 100)%Z
        /\ ((0 <= risk <= 100)%Z /\ (0 <= safe <= 100)%Z
            <-> (0 <= score <= 100)%Z)).
Proof.
  unfold AnalysisViewChart.riskColorHex, AnalysisView.getRiskColor,
    AnalysisViewChart.riskIcon, AnalysisViewChart.riskData.
  assert (Hdata : exists risk safe,
            [(lit "Risk", score); (lit "Safe", (100 - score)%Z)]
            = [(lit "Risk", risk); (lit "Safe", safe)]
            /\ risk = score /\ (risk + safe = 100)%Z
            /\ ((0 <= risk <= 100)%Z /\ (0 <= safe <= 100)%Z
                <-> (0 <= score <= 100)%Z)).
  { exists score, (100 - score)%Z. repeat split; lia. }
  destruct (Z.ltb_spec score 20), (Z.ltb_spec score 50), (Z.ltb_spec score 80);
    try (exfalso; lia);
    repeat match goal with
    | |- _ /\ _ => split
    | |- _ <-> _ => split
    end; try exact Hdata; intros; try lia; try reflexivity;
    try (repeat split; reflexivity);
    try (left; reflexivity); try (right; reflexivity);
    repeat match goal with
    | E : _ \/ _ |- _ => destruct E
    end;
    try match goal with
    | E : lit _ = lit _ |- _ => vm_compute in E; discriminate E
    | E : _ = _ :> AnalysisViewChart.Icon |- _ => discriminate E
    end.
Qed.

(** The score 35. *)
Lemma chart_tiers_witness :
  AnalysisView.getRiskColor 35 = lit "text-yellow-600"
  /\ AnalysisViewChart.riskColorHex 35 = lit "#22c55e"
  /\ AnalysisViewChart.riskIcon 35 = AnalysisViewChart.AlertTriangle.
Proof.
  destruct (chart_tiers 35) as (_ & _ & _ & H & _). apply H. lia.
Defined.

Section Labels.

Import AnalysisViewChart.



End Labels.



(** Three additions. *)
Lemma ids_unique_without_removal_witness :
  map Types.id
    (ReferenceList.contents
       (Nat.iter 3 ReferenceList.addReference ReferenceList.empty))
  = [lit "REF-001"; lit "REF-002"; lit "REF-003"].
Proof.
  destruct (ids_unique_without_removal 3) as (H & _).
  rewrite H. reflexivity.
Defined.
